(** * Technical indicators and alert strategies of the Exchange Outpost
      TypeScript function template

    The repository documents example strategies (SMA crossover, RSI, price
    threshold, volume spike, Bollinger breakout, multiple timeframes and a
    combination of indicators) together with a quick reference of indicator
    functions.  This development embeds those functions and states the
    properties of the specification over them.

    Conventions of the embedding.
    - A JavaScript [number] is an IEEE-754 binary64 value.  The indicator
      code is written once over an interface [Number] of the arithmetic it
      uses; the instance [binary64] (primitive floats) is what the program
      computes with, and the properties that depend on the arithmetic are
      proved of it, from the specification of its rounding.
    - Array lengths, loop counters and periods are integers; they are carried
      as [Z] (JavaScript represents them exactly below 2^53) and converted
      with [of_Z] where the source divides by them.
    - [undefined] is [None]; an array that may hold [undefined] is a list of
      options.
    - [scheduleEmail] and [output] are the two effects of a strategy; a run
      returns the scheduled e-mails and the record given to [output], or
      nothing when an exception escapes it.
    - The package exchange-outpost-abi ([FunctionArgs]) is not part of the
      sources; its two accessors are modelled from the way the strategies
      and the specification use them. *)

From Stdlib Require Import ZArith Lia List Bool String Ascii.
From Stdlib Require Import Floats.
From stdpp Require Import base option strings gmap.
Import ListNotations.

Open Scope string_scope.
Open Scope list_scope.
Open Scope Z_scope.

(** ** The arithmetic of JavaScript numbers, as an interface *)

Class Number : Type := {
  num : Type;
  (** the number denoted by an integer literal or an integer-valued variable *)
  of_Z : Z -> num;
  (** the value of a decimal literal [(-1)^s * m * 10^e], rounded once *)
  of_decimal : bool -> Z -> Z -> num;
  NaN : num;
  Infinity : num;
  num_neg : num -> num;
  num_add : num -> num -> num;
  num_sub : num -> num -> num;
  num_mul : num -> num -> num;
  num_div : num -> num -> num;
  Math_abs : num -> num;
  Math_sqrt : num -> num;
  (** [a < b] and [a <= b]; both are false when an operand is NaN *)
  num_lt : num -> num -> bool;
  num_le : num -> num -> bool;
  (** ToBoolean: false exactly on +0, -0 and NaN *)
  truthy : num -> bool
}.

Declare Scope num_scope.
Delimit Scope num_scope with num.
Notation "# z" := (of_Z z) (at level 5, z at level 0, format "# z") : num_scope.
Notation "x + y" := (num_add x y) : num_scope.
Notation "x - y" := (num_sub x y) : num_scope.
Notation "x * y" := (num_mul x y) : num_scope.
Notation "x / y" := (num_div x y) : num_scope.
Notation "x <? y" := (num_lt x y) : num_scope.
Notation "x <=? y" := (num_le x y) : num_scope.
Notation "x >? y" := (num_lt y x) : num_scope.
Notation "x >=? y" := (num_le y x) : num_scope.

(** ** JavaScript arrays *)

(** [arr[i]]: [undefined] outside [0 .. length-1]. *)
Definition get {A : Type} (arr : list A) (i : Z) : option A :=
  if i <? 0 then None else nth_error arr (Z.to_nat i).

(** An index argument of [slice], made absolute and clamped to the array. *)
Definition relative_index (len i : Z) : Z :=
  if i <? 0 then Z.max (len + i) 0 else Z.min i len.

(** [arr.slice(start, end)]. *)
Definition slice {A : Type} (arr : list A) (start stop : Z) : list A :=
  let len := Z.of_nat (length arr) in
  let k := relative_index len start in
  let final := relative_index len stop in
  firstn (Z.to_nat (final - k)) (skipn (Z.to_nat k) arr).

(** [arr.slice(start)]. *)
Definition slice_from {A : Type} (arr : list A) (start : Z) : list A :=
  slice arr start (Z.of_nat (length arr)).

(** [arr[i] = v] on an array that may have holes: the array grows to
    [i + 1] elements when [i] is past its end. *)
Definition store {A : Type} (arr : list (option A)) (i : Z) (v : option A)
  : list (option A) :=
  let n := Z.to_nat i in
  if i <? 0 then arr
  else if (n <? length arr)%nat then firstn n arr ++ v :: skipn (S n) arr
  else arr ++ repeat None (n - length arr) ++ [v].

(** [arr[i]] on an array that may have holes. *)
Definition get_hole {A : Type} (arr : list (option A)) (i : Z) : option A :=
  match get arr i with Some v => v | None => None end.

(** [arr.reduce(f, init)]. *)
Definition reduce {A B : Type} (f : B -> A -> B) (init : B) (arr : list A) : B :=
  fold_left f arr init.

(** The values [lo, lo+1, ..., hi] a counting loop
    [for (let i = lo; i <= hi; i++)] runs through. *)
Definition range_incl (lo hi : Z) : list Z :=
  map (fun j => lo + Z.of_nat j) (seq 0 (Z.to_nat (hi - lo + 1))).

(** The values a loop [for (let i = lo; i < hi; i++)] runs through. *)
Definition range_excl (lo hi : Z) : list Z := range_incl lo (hi - 1).

(** ** Indicator functions of the quick reference *)

Module Indicators.
Section Generic.
Context {N : Number}.
Local Open Scope num_scope.

(** ToNumber of a value read from an array of numbers. *)
Definition toNum (v : option num) : num :=
  match v with Some x => x | None => NaN end.

(** [a || b] on numbers. *)
Definition num_or (a b : num) : num := if truthy a then a else b.

Definition sum (arr : list num) : num := reduce num_add #0 arr.

Definition calculateSma (data : list num) (period : Z) : list num :=
  map (fun i => sum (slice data i (i + period)%Z) / #period)
      (range_incl 0 (Z.of_nat (length data) - period)).

Definition calculateEma (data : list num) (period : Z) : list (option num) :=
  let k := #2 / (#period + #1) in
  let ema := store [] 0 (get data 0) in
  fold_left
    (fun ema i =>
       store ema i (Some (toNum (get data i) * k
                        + toNum (get_hole ema (i - 1)%Z) * (#1 - k))))
    (range_excl 1 (Z.of_nat (length data))) ema.

Definition calculateStdDev (data : list num) (period : Z) : num :=
  let slice_ := slice_from data (- period) in
  let len := #(Z.of_nat (length slice_)) in
  let mean := sum slice_ / len in
  let squaredDiffs := map (fun v => (v - mean) * (v - mean)) slice_ in
  let variance := sum squaredDiffs / len in
  Math_sqrt variance.

Definition rsi_value (recentChanges : list num) (period : Z) : num :=
  let gains := sum (List.filter (fun c => c >? #0) recentChanges) / #period in
  let losses :=
    Math_abs (sum (List.filter (fun c => c <? #0) recentChanges)) / #period in
  let rs := gains / num_or losses #1 in
  #100 - #100 / (#1 + rs).

Definition price_changes (prices : list num) : list num :=
  map (fun i => toNum (get prices i) - toNum (get prices (i - 1)%Z))
      (range_excl 1 (Z.of_nat (length prices))).

Definition calculateRsi (prices : list num) (period : Z) : list num :=
  let changes := price_changes prices in
  map (fun i => rsi_value (slice changes (i - period)%Z i) period)
      (range_incl period (Z.of_nat (length changes))).

(** [detectCrossover]; the two copies in the sources differ only in the
    labels they return. *)
Definition crossover_with (up down : string) (line1 line2 : list num)
  : option string :=
  let n1 := Z.of_nat (length line1) in
  let n2 := Z.of_nat (length line2) in
  if (n1 <? 2)%Z || (n2 <? 2)%Z then None
  else
    let current1 := toNum (get line1 (n1 - 1)%Z) in
    let previous1 := toNum (get line1 (n1 - 2)%Z) in
    let current2 := toNum (get line2 (n2 - 1)%Z) in
    let previous2 := toNum (get line2 (n2 - 2)%Z) in
    if (previous1 <=? previous2) && (current1 >? current2) then Some up
    else if (previous1 >=? previous2) && (current1 <? current2) then Some down
    else None.

Definition detectCrossover : list num -> list num -> option string :=
  crossover_with "above" "below".
End Generic.
End Indicators.

(** ** The host boundary

    [FunctionArgs], [scheduleEmail] and [output] belong to the package
    exchange-outpost-abi, which the template imports; [parseInt] and
    [parseFloat] are the built-ins of the language. *)

Record Candle (T : Type) : Type := {
  timestamp : Z;
  open : T;
  high : T;
  low : T;
  close : T;
  volume : T
}.
Arguments timestamp {T} _.
Arguments open {T} _.
Arguments high {T} _.
Arguments low {T} _.
Arguments close {T} _.
Arguments volume {T} _.

(** The input of a run, over the type [T] of numbers. *)
Record FunctionArgs (T : Type) : Type := {
  callArguments : gmap string string;
  candles : gmap string (list (Candle T))
}.
Arguments callArguments {T} _.
Arguments candles {T} _.

(** Modelled from the spec: [getCallArgument] of exchange-outpost-abi is not
    in the sources.  The call arguments are a mapping from parameter name to
    a string; the parser is applied to the string of a parameter that is
    present, and an absent parameter reads as [undefined]. *)
Definition getCallArgument {T V : Type}
    (args : FunctionArgs T) (name : string) (parser : string -> V) : option V :=
  match callArguments args !! name with
  | Some raw => Some (parser raw)
  | None => None
  end.

(** Modelled from the spec: [getCandles] of exchange-outpost-abi is not in
    the sources.  The input maps a ticker symbol to its series; [None] stands
    for the exception of a ticker without series. *)
Definition getCandles {T : Type} (args : FunctionArgs T) (ticker : string)
  : option (list (Candle T)) :=
  candles args !! ticker.

(** *** parseInt, with its radix left out

    Leading white space, an optional sign, an optional [0x] prefix, then the
    longest run of digits; [None] is NaN.  Strings are byte strings, so only
    the ASCII white space is skipped. *)

Definition is_space (c : ascii) : bool :=
  let n := Z.of_nat (nat_of_ascii c) in
  (n =? 32) || ((9 <=? n) && (n <=? 13)).

Fixpoint trim_start (s : string) : string :=
  match s with
  | String c rest => if is_space c then trim_start rest else s
  | EmptyString => s
  end.

Definition digit_value (c : ascii) : option Z :=
  let n := Z.of_nat (nat_of_ascii c) in
  if (48 <=? n) && (n <=? 57) then Some (n - 48)
  else if (97 <=? n) && (n <=? 122) then Some (n - 87)
  else if (65 <=? n) && (n <=? 90) then Some (n - 55)
  else None.

(** The value of the longest prefix of digits of the radix, [acc] being the
    value of the digits already read ([None]: no digit yet). *)
Fixpoint digits (radix : Z) (s : string) (acc : option Z) : option Z * string :=
  match s with
  | String c rest =>
      match digit_value c with
      | Some d =>
          if d <? radix
          then digits radix rest (Some (default 0 acc * radix + d))
          else (acc, s)
      | None => (acc, s)
      end
  | EmptyString => (acc, s)
  end.

Definition strip_sign (s : string) : bool * string :=
  match s with
  | String "-" rest => (true, rest)
  | String "+" rest => (false, rest)
  | _ => (false, s)
  end.

Definition parseInt (s : string) : option Z :=
  let '(negative, s1) := strip_sign (trim_start s) in
  let '(radix, s2) :=
    match s1 with
    | String "0" (String "x" rest) | String "0" (String "X" rest) => (16, rest)
    | _ => (10, s1)
    end in
  match fst (digits radix s2 None) with
  | Some n => Some (if negative then - n else n)
  | None => None
  end.

(** *** parseFloat

    The longest prefix that is a decimal literal: [Infinity], or digits with
    an optional fraction and an optional exponent. *)

Inductive literal : Type :=
  | LitInfinity (negative : bool)
  | LitDecimal (negative : bool) (mantissa exponent : Z).

(** The digits of a fraction: their value appended to [m], and their count. *)
Fixpoint fraction (s : string) (m : Z) (count : Z) (seen : bool)
  : Z * Z * bool * string :=
  match s with
  | String c rest =>
      match digit_value c with
      | Some d =>
          if d <? 10 then fraction rest (m * 10 + d) (count + 1) true
          else (m, count, seen, s)
      | None => (m, count, seen, s)
      end
  | EmptyString => (m, count, seen, s)
  end.

Definition exponent_part (s : string) : Z :=
  match s with
  | String "e" rest | String "E" rest =>
      let '(negative, s1) := strip_sign rest in
      match fst (digits 10 s1 None) with
      | Some n => if negative then - n else n
      | None => 0
      end
  | _ => 0
  end.

Definition scan_literal (s : string) : option literal :=
  let '(negative, s1) := strip_sign (trim_start s) in
  if String.prefix "Infinity" s1 then Some (LitInfinity negative)
  else
    let '(whole, s2) := digits 10 s1 None in
    let '(m, count, seen, s3) :=
      match s2 with
      | String "." rest => fraction rest (default 0 whole) 0 false
      | _ => (default 0 whole, 0, false, s2)
      end in
    match whole, seen with
    | None, false => None
    | _, _ => Some (LitDecimal negative m (exponent_part s3 - count))
    end.

Definition parseFloat {N : Number} (s : string) : num :=
  match scan_literal s with
  | Some (LitInfinity negative) =>
      if negative then num_neg Infinity else Infinity
  | Some (LitDecimal negative m e) => of_decimal negative m e
  | None => NaN
  end.

(** *** The operator [||] with a literal on its right

    [a || b] is [a] when ToBoolean([a]) holds and [b] otherwise.  [truthy_value]
    gives the value of a truthy operand, in the type of the literal. *)

Class Truthy (T V : Type) := truthy_value : T -> option V.
#[global] Hint Mode Truthy ! - : typeclass_instances.

#[global] Instance truthy_string : Truthy string string :=
  fun s => match s with EmptyString => None | _ => Some s end.

(** A result of [parseInt]: NaN and 0 are falsy. *)
#[global] Instance truthy_int : Truthy (option Z) Z :=
  fun n => match n with
           | Some z => if z =? 0 then None else Some z
           | None => None
           end.

#[global] Instance truthy_num {N : Number} : Truthy num num :=
  fun x => if truthy x then Some x else None.

Definition or_else {T V : Type} `{Truthy T V} (a : option T) (b : V) : V :=
  match a with
  | Some x => match truthy_value x with Some v => v | None => b end
  | None => b
  end.

Infix "|||" := or_else (at level 50, left associativity).

(** [a === 'label'] for a nullable string. *)
Definition is_label (a : option string) (label : string) : bool :=
  match a with Some s => String.eqb s label | None => false end.

(** *** What a run produces *)

(** A template literal, kept as its parts: the text of a number is the
    host's business. *)
Inductive part (T : Type) : Type :=
  | Lit (text : string)
  | Str (s : string)
  | Int (z : Z)
  | Num (x : option T)
  | Fixed2 (x : T).
Arguments Lit {T} _.
Arguments Str {T} _.
Arguments Int {T} _.
Arguments Num {T} _.
Arguments Fixed2 {T} _.

Inductive value (T : Type) : Type :=
  | VUndefined
  | VNull
  | VBool (b : bool)
  | VNum (x : T)
  | VStr (s : string)
  | VTemplate (parts : list (part T)).
Arguments VUndefined {T}.
Arguments VNull {T}.
Arguments VBool {T} _.
Arguments VNum {T} _.
Arguments VStr {T} _.
Arguments VTemplate {T} _.

Definition js {T : Type} (x : option T) : value T :=
  match x with Some v => VNum v | None => VUndefined end.

Record Email (T : Type) : Type := {
  recipient : string;
  message : list (part T)
}.
Arguments recipient {T} _.
Arguments message {T} _.

(** The e-mails given to [scheduleEmail] and the record given to [output]. *)
Record Run (T : Type) : Type := {
  emails : list (Email T);
  output : list (string * value T)
}.
Arguments emails {T} _.
Arguments output {T} _.

Definition field {T : Type} (r : Run T) (name : string) : option (value T) :=
  snd <$> List.find (fun kv => String.eqb (fst kv) name) (output r).

(** ** Example strategies

    Each [const x = args.getCallArgument(...)] of a strategy is a definition
    [x args]; [run] is the body of the strategy. *)

(** *** Simple Moving Average Alert *)

Module SmaAlert.
Section Generic.
Context {N : Number}.

(** The strategy repeats [calculateSma] of the quick reference verbatim. *)
Definition calculateSma : list num -> Z -> list num := Indicators.calculateSma.

Definition detectCrossover : list num -> list num -> option string :=
  Indicators.crossover_with "bullish" "bearish".

Definition ticker (args : FunctionArgs num) : string :=
  getCallArgument args "ticker" (fun v => v) ||| "BTCUSDT".
Definition fastPeriod (args : FunctionArgs num) : Z :=
  getCallArgument args "fastPeriod" parseInt ||| 10.
Definition slowPeriod (args : FunctionArgs num) : Z :=
  getCallArgument args "slowPeriod" parseInt ||| 20.
Definition email (args : FunctionArgs num) : string :=
  getCallArgument args "email" (fun v => v) ||| "trader@example.com".

Definition run (args : FunctionArgs num) : option (Run num) :=
  match getCandles args (ticker args) with
  | None => None
  | Some candles =>
    let closePrices := map close candles in
    let fastSma := calculateSma closePrices (fastPeriod args) in
    let slowSma := calculateSma closePrices (slowPeriod args) in
    let crossover := detectCrossover fastSma slowSma in
    let '(sent, emailSent) :=
      if is_label crossover "bullish" then
        ([ {| recipient := email args;
              message := [Lit "Bullish crossover detected for ";
                          Str (ticker args);
                          Lit ": Fast MA ("; Int (fastPeriod args);
                          Lit ") crossed above Slow MA (";
                          Int (slowPeriod args); Lit ")"] |} ], true)
      else if is_label crossover "bearish" then
        ([ {| recipient := email args;
              message := [Lit "Bearish crossover detected for ";
                          Str (ticker args);
                          Lit ": Fast MA ("; Int (fastPeriod args);
                          Lit ") crossed below Slow MA (";
                          Int (slowPeriod args); Lit ")"] |} ], true)
      else ([], false) in
    Some {| emails := sent;
            output :=
              [ ("status", VStr "ok");
                ("ticker", VStr (ticker args));
                ("crossover", VStr (crossover ||| "none"));
                ("emailSent", VBool emailSent);
                ("currentFastSma",
                  js (get fastSma (Z.of_nat (length fastSma) - 1)));
                ("currentSlowSma",
                  js (get slowSma (Z.of_nat (length slowSma) - 1))) ] |}
  end.
End Generic.
End SmaAlert.

(** *** RSI Overbought/Oversold Alert *)

Module RsiAlert.
Section Generic.
Context {N : Number}.
Local Open Scope num_scope.

(** The strategy repeats [calculateRsi] of the quick reference verbatim. *)
Definition calculateRsi : list num -> Z -> list num := Indicators.calculateRsi.

Definition ticker (args : FunctionArgs num) : string :=
  getCallArgument args "ticker" (fun v => v) ||| "BTCUSDT".
Definition rsiPeriod (args : FunctionArgs num) : Z :=
  getCallArgument args "rsiPeriod" parseInt ||| 14%Z.
Definition overbought (args : FunctionArgs num) : num :=
  getCallArgument args "overbought" parseFloat ||| #70.
Definition oversold (args : FunctionArgs num) : num :=
  getCallArgument args "oversold" parseFloat ||| #30.
Definition email (args : FunctionArgs num) : string :=
  getCallArgument args "email" (fun v => v) ||| "trader@example.com".

Definition record (args : FunctionArgs num) (currentRsi : option num)
    (signal : value num) (sent : list (Email num)) : Run num :=
  {| emails := sent;
     output :=
       [ ("status", VStr "ok"); ("ticker", VStr (ticker args));
         ("rsi", js currentRsi); ("signal", signal);
         ("emailSent", VBool (negb (Nat.eqb (length sent) 0)));
         ("overbought", VNum (overbought args));
         ("oversold", VNum (oversold args)) ] |}.

Definition run (args : FunctionArgs num) : option (Run num) :=
  match getCandles args (ticker args) with
  | None => None
  | Some candles =>
    let closePrices := map close candles in
    let rsi := calculateRsi closePrices (rsiPeriod args) in
    let currentRsi := get rsi (Z.of_nat (length rsi) - 1) in
    (* [currentRsi.toFixed] throws when [currentRsi] is undefined *)
    let alert (label text : string) (threshold : num) :=
      match currentRsi with
      | Some r =>
          Some (record args currentRsi (VStr label)
                  [ {| recipient := email args;
                       message := [Str (ticker args); Lit text; Fixed2 r;
                                   Lit " (threshold: ";
                                   Num (Some threshold); Lit ")"] |} ])
      | None => None
      end in
    if Indicators.toNum currentRsi >=? overbought args then
      alert "overbought" " RSI is overbought: " (overbought args)
    else if Indicators.toNum currentRsi <=? oversold args then
      alert "oversold" " RSI is oversold: " (oversold args)
    else Some (record args currentRsi VNull [])
  end.
End Generic.
End RsiAlert.

(** *** Price Threshold Alert *)

Module PriceThreshold.
Section Generic.
Context {N : Number}.
Local Open Scope num_scope.

Definition ticker (args : FunctionArgs num) : string :=
  getCallArgument args "ticker" (fun v => v) ||| "BTCUSDT".
(** [threshold] is read without a default: it is [undefined] when the
    parameter is missing. *)
Definition threshold (args : FunctionArgs num) : option num :=
  getCallArgument args "threshold" parseFloat.
Definition direction (args : FunctionArgs num) : string :=
  getCallArgument args "direction" (fun v => v) ||| "above".
Definition email (args : FunctionArgs num) : string :=
  getCallArgument args "email" (fun v => v) ||| "trader@example.com".

Definition run (args : FunctionArgs num) : option (Run num) :=
  match getCandles args (ticker args) with
  | None => None
  | Some candles =>
    let n := Z.of_nat (length candles) in
    if (n <? 2)%Z then
      Some {| emails := [];
              output := [ ("status", VStr "error");
                          ("message", VStr "Not enough candles for analysis") ] |}
    else
      (* reading [.close] of a missing candle throws *)
      match get candles (n - 1)%Z, get candles (n - 2)%Z with
      | Some current, Some previous =>
        let currentPrice := close current in
        let previousPrice := close previous in
        let alert (text : string) :=
          {| recipient := email args;
             message := [Str (ticker args); Lit text; Num (threshold args);
                         Lit ". Current price: "; Num (Some currentPrice)] |} in
        let '(sent, triggered, emailSent) :=
          if String.eqb (direction args) "above"
             && (previousPrice <=? Indicators.toNum (threshold args))
             && (currentPrice >? Indicators.toNum (threshold args))
          then ([alert " crossed ABOVE "], true, true)
          else if String.eqb (direction args) "below"
                  && (previousPrice >=? Indicators.toNum (threshold args))
                  && (currentPrice <? Indicators.toNum (threshold args))
          then ([alert " crossed BELOW "], true, true)
          else ([], false, false) in
        Some {| emails := sent;
                output :=
                  [ ("status", VStr "ok"); ("ticker", VStr (ticker args));
                    ("currentPrice", VNum currentPrice);
                    ("threshold", js (threshold args));
                    ("direction", VStr (direction args));
                    ("triggered", VBool triggered);
                    ("emailSent", VBool emailSent) ] |}
      | _, _ => None
      end
  end.
End Generic.
End PriceThreshold.

(** *** Volume Spike Detector *)

Module VolumeSpike.
Section Generic.
Context {N : Number}.
Local Open Scope num_scope.

Definition calculateAverage (data : list num) : num :=
  Indicators.sum data / #(Z.of_nat (length data)).

Definition ticker (args : FunctionArgs num) : string :=
  getCallArgument args "ticker" (fun v => v) ||| "BTCUSDT".
Definition volumePeriod (args : FunctionArgs num) : Z :=
  getCallArgument args "volumePeriod" parseInt ||| 20%Z.
Definition spikeMultiplier (args : FunctionArgs num) : num :=
  getCallArgument args "spikeMultiplier" parseFloat ||| #2.
Definition email (args : FunctionArgs num) : string :=
  getCallArgument args "email" (fun v => v) ||| "trader@example.com".

Definition currentVolume (candles : list (Candle num)) : option num :=
  let volumes := map volume candles in
  get volumes (Z.of_nat (length volumes) - 1).

Definition avgVolume (args : FunctionArgs num) (candles : list (Candle num)) : num :=
  let volumes := map volume candles in
  let historicalVolumes := slice volumes (- volumePeriod args - 1)%Z (-1) in
  calculateAverage historicalVolumes.

Definition volumeRatio (args : FunctionArgs num) (candles : list (Candle num)) : num :=
  Indicators.toNum (currentVolume candles) / avgVolume args candles.

Definition record (args : FunctionArgs num) (candles : list (Candle num))
    (sent : list (Email num)) (flag : bool) : Run num :=
  {| emails := sent;
     output :=
       [ ("status", VStr "ok"); ("ticker", VStr (ticker args));
         ("currentVolume", js (currentVolume candles));
         ("avgVolume", VNum (avgVolume args candles));
         ("volumeRatio", VNum (volumeRatio args candles));
         ("spikeDetected", VBool flag);
         ("emailSent", VBool flag) ] |}.

Definition run (args : FunctionArgs num) : option (Run num) :=
  match getCandles args (ticker args) with
  | None => None
  | Some candles =>
    if (Z.of_nat (length candles) <? volumePeriod args + 1)%Z then
      Some {| emails := [];
              output :=
                [ ("status", VStr "error");
                  ("message",
                    VTemplate [Lit "Not enough candles. Need at least ";
                               Int (volumePeriod args + 1)]) ] |}
    else if volumeRatio args candles >=? spikeMultiplier args then
      (* [currentVolume.toFixed] throws when [currentVolume] is undefined *)
      match currentVolume candles with
      | Some current =>
          Some (record args candles
                  [ {| recipient := email args;
                       message :=
                         [Lit "Volume spike detected for "; Str (ticker args);
                          Lit ": Current volume "; Fixed2 current;
                          Lit " is "; Fixed2 (volumeRatio args candles);
                          Lit "x the "; Int (volumePeriod args);
                          Lit "-period average (";
                          Fixed2 (avgVolume args candles); Lit ")"] |} ] true)
      | None => None
      end
    else Some (record args candles [] false)
  end.
End Generic.
End VolumeSpike.

(** *** Bollinger Bands Breakout *)

Module BollingerBreakout.
Section Generic.
Context {N : Number}.
Local Open Scope num_scope.

(** In this strategy [calculateSma] is the mean of the last [period]
    values. *)
Definition calculateSma (data : list num) (period : Z) : num :=
  let slice_ := slice_from data (- period) in
  Indicators.sum slice_ / #(Z.of_nat (length slice_)).

(** [Math.pow(x, 2)] is taken to be the product [x * x]. *)
Definition calculateStdDev (data : list num) (period : Z) : num :=
  let slice_ := slice_from data (- period) in
  let mean := calculateSma data period in
  let squaredDiffs := map (fun v => (v - mean) * (v - mean)) slice_ in
  let variance := Indicators.sum squaredDiffs / #(Z.of_nat (length slice_)) in
  Math_sqrt variance.

Definition ticker (args : FunctionArgs num) : string :=
  getCallArgument args "ticker" (fun v => v) ||| "BTCUSDT".
Definition period (args : FunctionArgs num) : Z :=
  getCallArgument args "period" parseInt ||| 20%Z.
Definition stdDevMultiplier (args : FunctionArgs num) : num :=
  getCallArgument args "stdDevMultiplier" parseFloat ||| #2.
Definition email (args : FunctionArgs num) : string :=
  getCallArgument args "email" (fun v => v) ||| "trader@example.com".

Definition upperBand (args : FunctionArgs num) (closePrices : list num) : num :=
  calculateSma closePrices (period args)
  + calculateStdDev closePrices (period args) * stdDevMultiplier args.

Definition lowerBand (args : FunctionArgs num) (closePrices : list num) : num :=
  calculateSma closePrices (period args)
  - calculateStdDev closePrices (period args) * stdDevMultiplier args.

(** The classification at the end of [run]: the value of [breakout]. *)
Definition breakout_of (currentPrice upper lower : num) : option string :=
  if currentPrice >? upper then Some "upper"
  else if currentPrice <? lower then Some "lower"
  else None.

Definition run (args : FunctionArgs num) : option (Run num) :=
  match getCandles args (ticker args) with
  | None => None
  | Some candles =>
    let closePrices := map close candles in
    if (Z.of_nat (length closePrices) <? period args)%Z then
      Some {| emails := [];
              output :=
                [ ("status", VStr "error");
                  ("message",
                    VTemplate [Lit "Not enough data. Need at least ";
                               Int (period args); Lit " candles"]) ] |}
    else
      let currentPrice := get closePrices (Z.of_nat (length closePrices) - 1) in
      let breakout :=
        breakout_of (Indicators.toNum currentPrice)
          (upperBand args closePrices) (lowerBand args closePrices) in
      let sent :=
        if is_label breakout "upper" then
          [ {| recipient := email args;
               message := [Str (ticker args);
                           Lit " broke above upper Bollinger Band: Price ";
                           Num currentPrice; Lit " > Upper Band ";
                           Fixed2 (upperBand args closePrices)] |} ]
        else if is_label breakout "lower" then
          [ {| recipient := email args;
               message := [Str (ticker args);
                           Lit " broke below lower Bollinger Band: Price ";
                           Num currentPrice; Lit " < Lower Band ";
                           Fixed2 (lowerBand args closePrices)] |} ]
        else [] in
      Some {| emails := sent;
              output :=
                [ ("status", VStr "ok"); ("ticker", VStr (ticker args));
                  ("currentPrice", js currentPrice);
                  ("sma", VNum (calculateSma closePrices (period args)));
                  ("upperBand", VNum (upperBand args closePrices));
                  ("lowerBand", VNum (lowerBand args closePrices));
                  ("breakout",
                    match breakout with Some b => VStr b | None => VNull end);
                  ("emailSent",
                    VBool (match breakout with Some _ => true | None => false end)) ] |}
  end.
End Generic.
End BollingerBreakout.

(** *** Multiple Timeframe Analysis *)

(** What [analysis[ticker]] holds: the figures of a ticker that was
    analysed, or the record of an exception (its text is the host's). *)
Inductive entry (T : Type) : Type :=
  | Analysed (price : option T) (sma : T) (trend : string)
  | Failed.
Arguments Analysed {T} _ _ _.
Arguments Failed {T}.

(** [obj[key] = v] on an object: the key keeps its place when it is already
    there, and is added at the end otherwise. *)
Fixpoint assign {V : Type} (obj : list (string * V)) (key : string) (v : V)
  : list (string * V) :=
  match obj with
  | [] => [(key, v)]
  | (k, old) :: rest =>
      if String.eqb k key then (k, v) :: rest
      else (k, old) :: assign rest key v
  end.

(** The e-mails scheduled and the record given to [output]. *)
Record Report (T : Type) : Type := {
  report_emails : list (Email T);
  report_status : string;
  report_analysis : list (string * entry T);
  report_signal : string;
  report_emailSent : bool
}.
Arguments report_emails {T} _.
Arguments report_status {T} _.
Arguments report_analysis {T} _.
Arguments report_signal {T} _.
Arguments report_emailSent {T} _.

Module MultiTimeframe.
Section Generic.
Context {N : Number}.
Local Open Scope num_scope.

(** The strategy repeats the scalar [calculateSma] of the Bollinger strategy
    verbatim. *)
Definition calculateSma : list num -> Z -> num := BollingerBreakout.calculateSma.

Definition tickers : list string := ["BTCUSDT_1H"; "BTCUSDT_4H"; "BTCUSDT_1D"].

Definition period (args : FunctionArgs num) : Z :=
  getCallArgument args "period" parseInt ||| 20%Z.
Definition email (args : FunctionArgs num) : string :=
  getCallArgument args "email" (fun v => v) ||| "trader@example.com".

(** The variables the loop updates. *)
Record state : Type := {
  analysis : list (string * entry num);
  allBullish : bool;
  allBearish : bool
}.

(** The body of the loop, for one ticker: an exception of [getCandles] is
    caught and recorded, a series that is too short is skipped. *)
Definition step (args : FunctionArgs num) (st : state) (ticker : string) : state :=
  match getCandles args ticker with
  | None =>
      {| analysis := assign (analysis st) ticker Failed;
         allBullish := allBullish st;
         allBearish := allBearish st |}
  | Some candles =>
      let closePrices := map close candles in
      if (Z.of_nat (length closePrices) <? period args + 1)%Z then st
      else
        let sma := calculateSma closePrices (period args) in
        let currentPrice := get closePrices (Z.of_nat (length closePrices) - 1) in
        let trend :=
          if Indicators.toNum currentPrice >? sma then "bullish" else "bearish" in
        {| analysis := assign (analysis st) ticker (Analysed currentPrice sma trend);
           allBullish :=
             if negb (String.eqb trend "bullish") then false else allBullish st;
           allBearish :=
             if negb (String.eqb trend "bearish") then false else allBearish st |}
  end.

Definition run (args : FunctionArgs num) : Report num :=
  let st :=
    fold_left (step args) tickers
      {| analysis := []; allBullish := true; allBearish := true |} in
  let '(sent, emailSent) :=
    if allBullish st then
      ([ {| recipient := email args;
            message := [Lit "Strong bullish signal: All timeframes are above ";
                        Int (period args); Lit "-period SMA"] |} ], true)
    else if allBearish st then
      ([ {| recipient := email args;
            message := [Lit "Strong bearish signal: All timeframes are below ";
                        Int (period args); Lit "-period SMA"] |} ], true)
    else ([], false) in
  {| report_emails := sent;
     report_status := "ok";
     report_analysis := analysis st;
     report_signal :=
       if allBullish st then "bullish"
       else if allBearish st then "bearish" else "mixed";
     report_emailSent := emailSent |}.
End Generic.
End MultiTimeframe.

(** *** Combining indicators

    The last example of the document is the body of a [run] only: the
    indicator functions are those of the quick reference, and [email] is a
    variable it does not declare, taken here as a parameter. *)

Record Signals : Type := {
  smaBullish : bool;
  rsiOversold : bool;
  strongBuySignal : bool
}.

Record Combination (T : Type) : Type := {
  combination_emails : list (Email T);
  combination_status : string;
  combination_ticker : string;
  combination_signals : Signals
}.
Arguments combination_emails {T} _.
Arguments combination_status {T} _.
Arguments combination_ticker {T} _.
Arguments combination_signals {T} _.

Module Combined.
Section Generic.
Context {N : Number}.
Local Open Scope num_scope.

Definition ticker (args : FunctionArgs num) : string :=
  getCallArgument args "ticker" (fun v => v) ||| "BTCUSDT".

Definition run (email : string) (args : FunctionArgs num)
  : option (Combination num) :=
  match getCandles args (ticker args) with
  | None => None
  | Some candles =>
    let closePrices := map close candles in
    let sma20 := Indicators.calculateSma closePrices 20 in
    let sma50 := Indicators.calculateSma closePrices 50 in
    let rsi := Indicators.calculateRsi closePrices 14 in
    let smaBullish :=
      Indicators.toNum (get sma20 (Z.of_nat (length sma20) - 1))
      >? Indicators.toNum (get sma50 (Z.of_nat (length sma50) - 1)) in
    let rsiOversold :=
      Indicators.toNum (get rsi (Z.of_nat (length rsi) - 1)) <? #30 in
    let strongBuySignal := smaBullish && rsiOversold in
    Some {| combination_emails :=
              if strongBuySignal then
                [ {| recipient := email;
                     message := [Lit "Strong buy signal for "; Str (ticker args);
                                 Lit ": SMA bullish + RSI oversold"] |} ]
              else [];
            combination_status := "ok";
            combination_ticker := ticker args;
            combination_signals :=
              {| smaBullish := smaBullish;
                 rsiOversold := rsiOversold;
                 strongBuySignal := strongBuySignal |} |}
  end.
End Generic.
End Combined.

(** ** The arithmetic of the program *)

(** *** binary64: the numbers of the program *)

Module Binary64.
(** An integer, rounded to the nearest double (ties to even). *)
Definition of_Z (z : Z) : float :=
  SF2Prim (binary_normalize prec emax z 0 false).

(** A decimal literal, rounded once to the nearest double. *)
Definition of_decimal (negative : bool) (m e : Z) : float :=
  match m with
  | Z0 => if negative then neg_zero else zero
  | Zpos p =>
      if 0 <=? e
      then SF2Prim (binary_normalize prec emax
                      (cond_Zopp negative (Zpos p * 10 ^ e)) 0 false)
      else SF2Prim (SFdiv prec emax (S754_finite negative p 0)
                      (S754_finite false (Z.to_pos (10 ^ (- e))) 0))
  | Zneg _ => nan
  end.

Definition truthy (x : float) : bool :=
  negb (PrimFloat.is_zero x || PrimFloat.is_nan x).
End Binary64.

Definition binary64 : Number := {|
  num := float;
  of_Z := Binary64.of_Z;
  of_decimal := Binary64.of_decimal;
  NaN := nan;
  Infinity := infinity;
  num_neg := PrimFloat.opp;
  num_add := PrimFloat.add;
  num_sub := PrimFloat.sub;
  num_mul := PrimFloat.mul;
  num_div := PrimFloat.div;
  Math_abs := PrimFloat.abs;
  Math_sqrt := PrimFloat.sqrt;
  num_lt := PrimFloat.ltb;
  num_le := PrimFloat.leb;
  truthy := Binary64.truthy
|}.

(** Test data: a candle that closes at [c] with volume [v]. *)
Definition candle {T : Type} (c v : T) : Candle T :=
  {| timestamp := 0; open := c; high := c; low := c; close := c; volume := v |}.

(** Test data: the input of a run on the default ticker. *)
Definition input {T : Type} (arguments : list (string * string))
    (series : list (Candle T)) : FunctionArgs T :=
  {| callArguments := list_to_map arguments;
     candles := {[ "BTCUSDT" := series ]} |}.

(** ** Reference notions of the specification *)

(** [data[i .. i+p)]: the [p] consecutive elements that start at index [i]. *)
Definition spec_window {A : Type} (data : list A) (i p : Z) : list A :=
  firstn (Z.to_nat p) (skipn (Z.to_nat i) data).

(** The sum [w[0] + w[1] + ... + w[k-1]] of the first [k] elements of a
    window, added to 0 one index after the other. *)
Fixpoint sum_first {N : Number} (w : list num) (k : nat) : num :=
  match k with
  | O => of_Z 0
  | S k' => (sum_first w k' + nth k' w #0)%num
  end.

(** The arithmetic mean of a window: the sum of its elements over their
    number. *)
Definition spec_mean {N : Number} (w : list num) : num :=
  (sum_first w (length w) / #(Z.of_nat (length w)))%num.

(** The exponential moving average by its recurrence: the values that follow
    [prev] over the remaining data. *)
Fixpoint spec_ema {N : Number} (k prev : num) (rest : list num) : list num :=
  match rest with
  | [] => []
  | x :: rest' =>
      let e := (x * k + prev * (#1 - k))%num in
      e :: spec_ema k e rest'
  end.

(** A parsed argument is falsy when [||] discards it. *)
Definition falsy {T V : Type} `{Truthy T V} (x : T) : bool :=
  match truthy_value x with Some _ => false | None => true end.

(** The call arguments with the parameter [name] supplied as [raw]. *)
Definition with_argument {T : Type} (name raw : string) (args : FunctionArgs T)
  : FunctionArgs T :=
  {| callArguments := <[ name := raw ]> (callArguments args);
     candles := candles args |}.

(** The call arguments with the parameter [name] left out. *)
Definition without_argument {T : Type} (name : string) (args : FunctionArgs T)
  : FunctionArgs T :=
  {| callArguments := delete name (callArguments args);
     candles := candles args |}.

(** A key that orders the binary64 numbers: class (negative infinity,
    negative, zero, positive, positive infinity), then exponent and
    mantissa, both negated for the negative numbers. *)
Definition order_key (x : spec_float) : option (Z * Z * Z) :=
  match x with
  | S754_nan => None
  | S754_infinity true => Some (-2, 0, 0)
  | S754_infinity false => Some (2, 0, 0)
  | S754_zero _ => Some (0, 0, 0)
  | S754_finite true m e => Some (-1, - e, Zneg m)
  | S754_finite false m e => Some (1, e, Zpos m)
  end.

Definition key_lt (a b : Z * Z * Z) : Prop :=
  let '(a1, a2, a3) := a in
  let '(b1, b2, b3) := b in
  a1 < b1 \/ (a1 = b1 /\ (a2 < b2 \/ (a2 = b2 /\ a3 < b3))).

(** A run whose [emailSent] flag tells what was scheduled: nothing, or one
    e-mail to [address] together with the status [ok]. *)
Definition consistent_notification {T : Type} (address : string) (r : Run T)
  : Prop :=
  (emails r = [] /\ field r "emailSent" <> Some (VBool true))
  \/ (exists text, emails r = [ {| recipient := address; message := text |} ]
                   /\ field r "emailSent" = Some (VBool true)
                   /\ field r "status" = Some (VStr "ok")).

(** What the loop of the multiple-timeframe strategy makes of one ticker:
    its trend, or nothing when the ticker is skipped or fails. *)
Definition verdict {N : Number} (args : FunctionArgs num) (ticker : string)
  : option string :=
  match getCandles args ticker with
  | None => None
  | Some candles =>
      let closePrices := map close candles in
      if Z.of_nat (length closePrices) <? MultiTimeframe.period args + 1
      then None
      else Some (if (Indicators.toNum
                       (get closePrices (Z.of_nat (length closePrices) - 1))
                     >? MultiTimeframe.calculateSma closePrices
                          (MultiTimeframe.period args))%num
                 then "bullish" else "bearish")
  end.

(** ** Rounding of doubles

    Notions for the proofs on [binary_round_aux], by which the specification
    of the primitive operations rounds. *)

(** The record [rec] holds the integer part of [N / Q] and the position of
    the remainder with respect to one half. *)
Definition located (N Q : Z) (rec : shr_record) : Prop :=
  shr_m rec = N / Q
  /\ shr_r rec = (Q <=? 2 * (N mod Q))
  /\ shr_s rec = negb ((N mod Q =? 0) || (2 * (N mod Q) =? Q)).

(** [m1 * 2^e1 <= m2 * 2^e2], without fractions. *)
Definition vle (m1 e1 m2 e2 : Z) : Prop :=
  m1 * 2 ^ (e1 - Z.min e1 e2) <= m2 * 2 ^ (e2 - Z.min e1 e2).

(** The result of rounding once the mantissa [m1] at the exponent [e1] is
    known: a carry into the 54th digit is renormalised, an exponent above
    971 overflows. *)
Definition finish (sx : bool) (m1 e1 : Z) : spec_float :=
  if m1 =? 0 then S754_zero sx
  else if m1 <? 2 ^ 53 then
    if e1 <=? 971 then S754_finite sx (Z.to_pos m1) e1 else S754_infinity sx
  else
    if e1 + 1 <=? 971 then S754_finite sx (Z.to_pos (2 ^ 52)) (e1 + 1)
    else S754_infinity sx.

Definition fexp64 (e : Z) : Z := Z.max (e - 53) (-1074).

(** The mantissa and exponent of a positive double. *)
Definition canonical (m e : Z) : Prop :=
  0 < m < 2 ^ 53 /\ -1074 <= e <= 971 /\ (-1074 < e -> 2 ^ 52 <= m).

(** Classes of doubles: above zero, not below zero, not above zero. *)
Definition is_pos (x : spec_float) : bool :=
  match x with
  | S754_finite false _ _ | S754_infinity false => true
  | _ => false
  end.

Definition is_nonneg (x : spec_float) : bool :=
  match x with
  | S754_zero _ | S754_finite false _ _ | S754_infinity false => true
  | _ => false
  end.

Definition is_nonpos (x : spec_float) : bool :=
  match x with
  | S754_zero _ | S754_finite true _ _ | S754_infinity true => true
  | _ => false
  end.

Definition SF_nan (x : spec_float) : bool :=
  match x with S754_nan => true | _ => false end.

Definition SF_one : spec_float := S754_finite false 4503599627370496 (-52).

Definition SF_100 : spec_float := S754_finite false 7036874417766400 (-46).

Definition SF_inf (x : spec_float) : bool :=
  match x with S754_infinity _ => true | _ => false end.

(** The exponent at which [SFdiv] computes its quotient, and the numerator
    it divides. *)
Definition div_exponent (mx my : positive) (ex ey : Z) : Z :=
  Z.min (fexp64 (Z.pos (digits2_pos mx) + ex - (Z.pos (digits2_pos my) + ey)))
        (ex - ey).

Definition div_numerator (mx my : positive) (ex ey : Z) : Z :=
  Z.pos mx * 2 ^ (ex - ey - div_exponent mx my ex ey).

(** * Properties *)

(** ** Arrays and counting loops *)

Lemma get_nat {A : Type} (l : list A) (j : nat) :
  get l (Z.of_nat j) = nth_error l j.
Proof.
  unfold get. destruct (Z.ltb_spec (Z.of_nat j) 0); [lia|].
  now rewrite Nat2Z.id.
Qed.

Lemma get_map {A B : Type} (f : A -> B) (l : list A) (i : Z) :
  get (map f l) i = option_map f (get l i).
Proof.
  unfold get. destruct (i <? 0); [reflexivity|]. apply nth_error_map.
Qed.

Lemma get_app_last {A : Type} (l : list A) (x : A) :
  get (l ++ [x]) (Z.of_nat (length l)) = Some x.
Proof.
  rewrite get_nat, nth_error_app2 by lia.
  now rewrite Nat.sub_diag.
Qed.

Lemma get_app_left {A : Type} (l r : list A) (j : nat) :
  (j < length l)%nat -> get (l ++ r) (Z.of_nat j) = get l (Z.of_nat j).
Proof.
  intros Hj. rewrite !get_nat. now apply nth_error_app1.
Qed.

Lemma length_range_incl (lo hi : Z) :
  length (range_incl lo hi) = Z.to_nat (hi - lo + 1).
Proof. unfold range_incl. now rewrite length_map, length_seq. Qed.

Lemma get_range_incl (lo hi i : Z) :
  0 <= i < hi - lo + 1 -> get (range_incl lo hi) i = Some (lo + i).
Proof.
  intros Hi. unfold range_incl. rewrite get_map.
  replace i with (Z.of_nat (Z.to_nat i)) at 1 by lia.
  rewrite get_nat, nth_error_seq.
  destruct (Nat.ltb_spec (Z.to_nat i) (Z.to_nat (hi - lo + 1))); [|lia].
  simpl. f_equal. lia.
Qed.

Lemma range_incl_empty (lo hi : Z) : hi < lo -> range_incl lo hi = [].
Proof.
  intros H. unfold range_incl.
  now replace (Z.to_nat (hi - lo + 1)) with 0%nat by lia.
Qed.

Lemma range_incl_from_nat (j m : nat) :
  range_incl (Z.of_nat j) (Z.of_nat j + Z.of_nat m - 1)
  = map Z.of_nat (seq j m).
Proof.
  unfold range_incl.
  replace (Z.to_nat (Z.of_nat j + Z.of_nat m - 1 - Z.of_nat j + 1)) with m by lia.
  revert j. induction m as [|m IH]; intros j; [reflexivity|].
  change (seq j (S m)) with (j :: seq (S j) m).
  change (seq 0 (S m)) with (0%nat :: seq 1 m).
  simpl map. f_equal; [lia|].
  rewrite <- seq_shift, map_map.
  rewrite <- IH.
  apply map_ext. intros a. lia.
Qed.

Lemma slice_inside {A : Type} (l : list A) (i p : Z) :
  0 <= i -> 0 <= p -> i + p <= Z.of_nat (length l) ->
  slice l i (i + p) = spec_window l i p.
Proof.
  intros Hi Hp Hlen. unfold slice, spec_window, relative_index.
  destruct (Z.ltb_spec i 0); [lia|].
  destruct (Z.ltb_spec (i + p) 0); [lia|].
  rewrite !Z.min_l by lia.
  now replace (i + p - i) with p by lia.
Qed.

Lemma length_spec_window {A : Type} (l : list A) (i p : Z) :
  0 <= i -> 0 <= p -> i + p <= Z.of_nat (length l) ->
  length (spec_window l i p) = Z.to_nat p.
Proof.
  intros Hi Hp Hlen. unfold spec_window.
  rewrite length_firstn, length_skipn. lia.
Qed.

Lemma get_spec_window {A : Type} (l : list A) (i p j : Z) :
  0 <= i -> 0 <= j < p -> get (spec_window l i p) j = get l (i + j).
Proof.
  intros Hi Hj. unfold spec_window, get.
  destruct (Z.ltb_spec j 0); [lia|].
  destruct (Z.ltb_spec (i + j) 0); [lia|].
  rewrite nth_error_firstn.
  destruct (Nat.ltb_spec (Z.to_nat j) (Z.to_nat p)); [|lia].
  rewrite nth_error_skipn. f_equal. lia.
Qed.

(** ** The sum and the mean of a window *)

Section WindowSums.
Context {N : Number}.
Local Open Scope num_scope.

Lemma sum_first_app (l : list num) (x : num) (k : nat) :
  (k <= length l)%nat -> sum_first (l ++ [x]) k = sum_first l k.
Proof.
  induction k as [|k IH]; intros Hk; simpl; [reflexivity|].
  rewrite IH by lia. f_equal.
  rewrite app_nth1 by lia. reflexivity.
Qed.

(** [reduce], which adds the elements to 0 from the left, computes the sum
    of the elements taken one index after the other. *)
Lemma sum_sum_first (w : list num) :
  Indicators.sum w = sum_first w (length w).
Proof.
  unfold Indicators.sum, reduce.
  induction w as [|x l IH] using rev_ind; [reflexivity|].
  rewrite fold_left_app, length_app. simpl fold_left.
  replace (length l + length [x])%nat with (S (length l)) by (simpl; lia).
  simpl sum_first. rewrite sum_first_app by lia.
  rewrite IH. f_equal.
  rewrite app_nth2 by lia. now rewrite Nat.sub_diag.
Qed.

Lemma spec_mean_sum (w : list num) :
  spec_mean w = Indicators.sum w / #(Z.of_nat (length w)).
Proof. unfold spec_mean. now rewrite sum_sum_first. Qed.
End WindowSums.

(** ** Simple moving average *)

Section GenericIndicators.
Context {N : Number}.
Local Open Scope num_scope.

Lemma get_calculateSma (data : list num) (p i : Z) :
  (1 <= p)%Z -> (0 <= i < Z.of_nat (length data) - p + 1)%Z ->
  get (Indicators.calculateSma data p) i = Some (spec_mean (spec_window data i p)).
Proof.
  intros Hp Hi. unfold Indicators.calculateSma.
  rewrite get_map, get_range_incl by lia. simpl.
  rewrite slice_inside by lia.
  rewrite spec_mean_sum, length_spec_window by lia.
  now rewrite Z2Nat.id by lia.
Qed.

(** ** Exponential moving average *)

Lemma store_append (ema : list (option num)) (v : option num) :
  store ema (Z.of_nat (length ema)) v = ema ++ [v].
Proof.
  unfold store. destruct (Z.ltb_spec (Z.of_nat (length ema)) 0); [lia|].
  rewrite Nat2Z.id, Nat.ltb_irrefl, Nat.sub_diag. reflexivity.
Qed.

Lemma get_hole_map_Some (l : list num) (i : Z) :
  get_hole (map Some l) i = get l i.
Proof. unfold get_hole. rewrite get_map. now destruct (get l i). Qed.

(** The loop of [calculateEma], started after [pre] has been consumed and
    [acc ++ [e]] has been produced. *)
Lemma ema_loop (k : num) (rest pre : list num) (acc : list num) (e : num) :
  length (acc ++ [e]) = length pre ->
  fold_left
    (fun ema i =>
       store ema i (Some (Indicators.toNum (get (pre ++ rest) i) * k
                          + Indicators.toNum (get_hole ema (i - 1)%Z) * (#1 - k))))
    (map Z.of_nat (seq (length pre) (length rest)))
    (map Some (acc ++ [e]))
  = map Some ((acc ++ [e]) ++ spec_ema k e rest).
Proof.
  revert pre acc e. induction rest as [|x rest IH]; intros pre acc e Hlen.
  - simpl. now rewrite app_nil_r.
  - simpl seq. simpl map at 1. simpl fold_left.
    assert (Hget : get (pre ++ x :: rest) (Z.of_nat (length pre)) = Some x).
    { rewrite get_nat, nth_error_app2 by lia. now rewrite Nat.sub_diag. }
    assert (Hprev : get_hole (map Some (acc ++ [e])) (Z.of_nat (length pre) - 1)
                    = Some e).
    { rewrite get_hole_map_Some.
      rewrite length_app in Hlen. simpl in Hlen.
      replace (Z.of_nat (length pre) - 1)%Z with (Z.of_nat (length acc)) by lia.
      apply get_app_last. }
    rewrite Hget, Hprev. simpl Indicators.toNum.
    replace (Z.of_nat (length pre))
      with (Z.of_nat (length (map Some (acc ++ [e])))) at 1
      by (now rewrite length_map, Hlen).
    rewrite store_append.
    change [Some (x * k + e * (#1 - k))] with (map Some [x * k + e * (#1 - k)]).
    rewrite <- map_app.
    specialize (IH (pre ++ [x]) (acc ++ [e]) (x * k + e * (#1 - k))).
    replace ((pre ++ [x]) ++ rest) with (pre ++ x :: rest) in IH
      by (now rewrite <- app_assoc).
    replace (length (pre ++ [x])) with (S (length pre)) in IH
      by (rewrite length_app; simpl; lia).
    rewrite IH.
    + simpl spec_ema. now rewrite <- !app_assoc.
    + rewrite !length_app in *. simpl in *. lia.
Qed.

Lemma calculateEma_nonempty (d : num) (rest : list num) (p : Z) :
  Indicators.calculateEma (d :: rest) p
  = map Some (d :: spec_ema (#2 / (#p + #1)) d rest).
Proof.
  unfold Indicators.calculateEma, range_excl.
  change (store [] 0 (get (d :: rest) 0)) with (map Some ([] ++ [d])).
  replace (range_incl 1 (Z.of_nat (length (d :: rest)) - 1))
    with (map Z.of_nat (seq 1 (length rest)))
    by (rewrite <- range_incl_from_nat; f_equal; simpl length; lia).
  exact (ema_loop _ rest [d] [] d eq_refl).
Qed.

Lemma length_spec_ema (k prev : num) (rest : list num) :
  length (spec_ema k prev rest) = length rest.
Proof.
  revert prev. induction rest as [|x rest IH]; intros prev; simpl; [|rewrite IH]; reflexivity.
Qed.

(** The recurrence, read off the output: every element after the first is
    obtained from its predecessor. *)
Lemma spec_ema_step (k prev : num) (rest : list num) (j : nat) (x : num) :
  nth_error rest j = Some x ->
  exists before,
    nth_error (prev :: spec_ema k prev rest) j = Some before /\
    nth_error (prev :: spec_ema k prev rest) (S j)
    = Some (x * k + before * (#1 - k)).
Proof.
  revert prev j. induction rest as [|y rest IH]; intros prev j Hx.
  - destruct j; discriminate.
  - destruct j as [|j].
    + injection Hx as ->. exists prev. split; reflexivity.
    + simpl in Hx. destruct (IH (y * k + prev * (#1 - k)) j Hx) as (b & Hb & Hs).
      exists b. split; assumption.
Qed.
End GenericIndicators.

(** ** Facts of binary64 arithmetic

    The comparisons and the special cases of division, from the
    specification of the primitive operations. *)

Section Binary64Facts.
Local Open Scope float_scope.

Lemma SFltb_key (x y : spec_float) :
  SFltb x y = true <->
  exists a b, order_key x = Some a /\ order_key y = Some b /\ key_lt a b.
Proof.
  unfold SFltb.
  destruct x as [sx|sx| |sx mx ex], y as [sy|sy| |sy my ey];
    try destruct sx; try destruct sy; simpl;
    try (split; [discriminate | intros (a & b & Ha & Hb & Hlt);
                 try discriminate;
                 injection Ha as <-; injection Hb as <-; simpl in Hlt; lia]);
    try (split; [intros _; eexists; eexists; repeat split; simpl; lia
                | reflexivity]).
  - (* both negative *)
    change (Pos.compare_cont Eq mx my) with (Pos.compare mx my).
    destruct (Z.compare_spec ex ey) as [He|He|He];
      [destruct (Pos.compare_spec mx my) as [Hm|Hm|Hm]| |]; simpl;
      (split; [try discriminate; intros _; eexists; eexists;
               repeat split; simpl; lia
              |intros (a & b & Ha & Hb & Hlt);
               injection Ha as <-; injection Hb as <-; simpl in Hlt;
               try reflexivity; lia]).
  - (* both positive *)
    change (Pos.compare_cont Eq mx my) with (Pos.compare mx my).
    destruct (Z.compare_spec ex ey) as [He|He|He];
      [destruct (Pos.compare_spec mx my) as [Hm|Hm|Hm]| |]; simpl;
      (split; [try discriminate; intros _; eexists; eexists;
               repeat split; simpl; lia
              |intros (a & b & Ha & Hb & Hlt);
               injection Ha as <-; injection Hb as <-; simpl in Hlt;
               try reflexivity; lia]).
Qed.

Lemma SFleb_key (x y : spec_float) :
  SFleb x y = true <->
  exists a b, order_key x = Some a /\ order_key y = Some b /\ ~ key_lt b a.
Proof.
  unfold SFleb.
  destruct x as [sx|sx| |sx mx ex], y as [sy|sy| |sy my ey];
    try destruct sx; try destruct sy; simpl;
    try (split; [discriminate | intros (a & b & Ha & Hb & Hlt);
                 try discriminate;
                 injection Ha as <-; injection Hb as <-; simpl in Hlt; lia]);
    try (split; [intros _; eexists; eexists; repeat split; simpl; lia
                | reflexivity]).
  - change (Pos.compare_cont Eq mx my) with (Pos.compare mx my).
    destruct (Z.compare_spec ex ey) as [He|He|He];
      [destruct (Pos.compare_spec mx my) as [Hm|Hm|Hm]| |]; simpl;
      (split; [try discriminate; intros _; eexists; eexists;
               repeat split; simpl; lia
              |intros (a & b & Ha & Hb & Hlt);
               injection Ha as <-; injection Hb as <-; simpl in Hlt;
               try reflexivity; lia]).
  - change (Pos.compare_cont Eq mx my) with (Pos.compare mx my).
    destruct (Z.compare_spec ex ey) as [He|He|He];
      [destruct (Pos.compare_spec mx my) as [Hm|Hm|Hm]| |]; simpl;
      (split; [try discriminate; intros _; eexists; eexists;
               repeat split; simpl; lia
              |intros (a & b & Ha & Hb & Hlt);
               injection Ha as <-; injection Hb as <-; simpl in Hlt;
               try reflexivity; lia]).
Qed.
End Binary64Facts.

Section Binary64Order.
Local Open Scope float_scope.

Lemma key_lt_trans (a b c : Z * Z * Z) : key_lt a b -> key_lt b c -> key_lt a c.
Proof.
  destruct a as [[a1 a2] a3], b as [[b1 b2] b3], c as [[c1 c2] c3].
  simpl. lia.
Qed.

Lemma key_lt_irrefl (a : Z * Z * Z) : ~ key_lt a a.
Proof. destruct a as [[a1 a2] a3]. simpl. lia. Qed.

Lemma ltb_trans (x y z : float) :
  (x <? y) = true -> (y <? z) = true -> (x <? z) = true.
Proof.
  rewrite !FloatAxioms.ltb_spec, !SFltb_key.
  intros (a & b & Ha & Hb & Hab) (b' & c & Hb' & Hc & Hbc).
  rewrite Hb in Hb'. injection Hb' as <-.
  exists a, c. repeat split; try assumption. eapply key_lt_trans; eassumption.
Qed.

Lemma ltb_irrefl (x : float) : (x <? x) = false.
Proof.
  destruct (x <? x) eqn:E; [exfalso|reflexivity].
  rewrite FloatAxioms.ltb_spec, SFltb_key in E.
  destruct E as (a & b & Ha & Hb & Hab).
  rewrite Ha in Hb. injection Hb as <-. exact (key_lt_irrefl a Hab).
Qed.

Lemma ltb_asym (x y : float) : (x <? y) = true -> (y <? x) = false.
Proof.
  intros H. destruct (y <? x) eqn:E; [exfalso|reflexivity].
  pose proof (ltb_trans _ _ _ H E) as Hxx.
  rewrite ltb_irrefl in Hxx. discriminate.
Qed.

Lemma leb_not_ltb (x y : float) : (x <=? y) = true -> (y <? x) = false.
Proof.
  intros H. destruct (y <? x) eqn:E; [exfalso|reflexivity].
  rewrite FloatAxioms.leb_spec, SFleb_key in H. rewrite FloatAxioms.ltb_spec, SFltb_key in E.
  destruct H as (a & b & Ha & Hb & Hab), E as (b' & a' & Hb' & Ha' & Hlt).
  rewrite Ha in Ha'. rewrite Hb in Hb'.
  injection Ha' as <-. injection Hb' as <-. exact (Hab Hlt).
Qed.

(** Every comparison with NaN is false. *)
Lemma ltb_nan_r (x : float) : (x <? nan) = false.
Proof.
  rewrite FloatAxioms.ltb_spec. change (Prim2SF nan) with S754_nan.
  unfold SFltb. now destruct (Prim2SF x).
Qed.

Lemma ltb_nan_l (x : float) : (nan <? x) = false.
Proof. rewrite FloatAxioms.ltb_spec. reflexivity. Qed.

Lemma leb_nan_r (x : float) : (x <=? nan) = false.
Proof.
  rewrite FloatAxioms.leb_spec. change (Prim2SF nan) with S754_nan.
  unfold SFleb. now destruct (Prim2SF x).
Qed.

Lemma leb_nan_l (x : float) : (nan <=? x) = false.
Proof. rewrite FloatAxioms.leb_spec. reflexivity. Qed.

Lemma is_nan_spec (x : float) : Prim2SF x = S754_nan -> is_nan x = true.
Proof. intros H. unfold is_nan. now rewrite FloatAxioms.eqb_spec, H. Qed.

Lemma is_zero_spec (x : float) (s : bool) :
  Prim2SF x = S754_zero s -> is_zero x = true.
Proof.
  intros H. unfold is_zero. rewrite FloatAxioms.eqb_spec, H. reflexivity.
Qed.

(** A quotient of zero is zero or NaN, whatever the divisor: it is falsy. *)
Lemma zero_quotient_falsy (y : float) : Binary64.truthy (zero / y) = false.
Proof.
  unfold Binary64.truthy.
  pose proof (FloatAxioms.div_spec zero y) as H.
  change (Prim2SF zero) with (S754_zero false) in H.
  unfold SF64div, SFdiv in H.
  destruct (Prim2SF y) as [sy|sy| |sy my ey]; simpl in H.
  - now rewrite (is_nan_spec _ H), orb_true_r.
  - now rewrite (is_zero_spec _ _ H).
  - now rewrite (is_nan_spec _ H), orb_true_r.
  - now rewrite (is_zero_spec _ _ H).
Qed.

Lemma eqb_zero_inv (y : float) :
  (y =? zero) = true -> exists s, Prim2SF y = S754_zero s.
Proof.
  rewrite FloatAxioms.eqb_spec. change (Prim2SF zero) with (S754_zero false).
  unfold SFeqb. destruct (Prim2SF y) as [sy|sy| |sy my ey]; simpl;
    try destruct sy; try discriminate; intros _; eexists; reflexivity.
Qed.

(** A quotient by zero is NaN or an infinity. *)
Lemma quotient_by_zero (x y : float) :
  (y =? zero) = true -> is_finite (x / y) = false.
Proof.
  intros Hy. destruct (eqb_zero_inv y Hy) as (s & Hs).
  pose proof (FloatAxioms.div_spec x y) as H. rewrite Hs in H.
  unfold SF64div, SFdiv in H. unfold is_finite.
  assert (Hcases : Prim2SF (x / y) = S754_nan
                   \/ exists t, Prim2SF (x / y) = S754_infinity t).
  { destruct (Prim2SF x) as [sx|sx| |sx mx ex]; simpl in H; eauto. }
  destruct Hcases as [Hn|(t & Ht)].
  - now rewrite (is_nan_spec _ Hn).
  - unfold is_infinity. rewrite FloatAxioms.eqb_spec, FloatAxioms.abs_spec, Ht. simpl.
    now rewrite orb_true_r.
Qed.

Lemma nan_quotient (y : float) : nan / y = nan.
Proof.
  apply Prim2SF_inj. rewrite FloatAxioms.div_spec. reflexivity.
Qed.
End Binary64Order.

(** ** Crossover *)

Section Crossover.
Context {N : Number}.
Local Open Scope num_scope.

Lemma crossover_with_short (up down : string) (line1 line2 : list num) :
  (length line1 < 2)%nat \/ (length line2 < 2)%nat ->
  Indicators.crossover_with up down line1 line2 = None.
Proof.
  intros H. unfold Indicators.crossover_with.
  destruct (Z.ltb_spec (Z.of_nat (length line1)) 2);
    destruct (Z.ltb_spec (Z.of_nat (length line2)) 2);
    try reflexivity; lia.
Qed.

Lemma get_last_two (l : list num) (p c : num) :
  get (l ++ [p; c]) (Z.of_nat (length (l ++ [p; c])) - 1) = Some c /\
  get (l ++ [p; c]) (Z.of_nat (length (l ++ [p; c])) - 2) = Some p.
Proof.
  change (l ++ [p; c]) with (l ++ [p] ++ [c]). rewrite app_assoc. split.
  - replace (Z.of_nat (length ((l ++ [p]) ++ [c])) - 1)%Z
      with (Z.of_nat (length (l ++ [p])))
      by (rewrite !length_app; simpl; lia).
    apply get_app_last.
  - replace (Z.of_nat (length ((l ++ [p]) ++ [c])) - 2)%Z
      with (Z.of_nat (length l))
      by (rewrite !length_app; simpl; lia).
    rewrite get_app_left by (rewrite length_app; simpl; lia).
    apply get_app_last.
Qed.

(** On two series with at least two values each, the decision reads the
    last two values of each and nothing else. *)
Lemma crossover_with_last_two (up down : string)
    (f s : list num) (pf cf ps cs : num) :
  Indicators.crossover_with up down (f ++ [pf; cf]) (s ++ [ps; cs])
  = if (pf <=? ps) && (cf >? cs) then Some up
    else if (pf >=? ps) && (cf <? cs) then Some down
    else None.
Proof.
  unfold Indicators.crossover_with.
  destruct (get_last_two f pf cf) as [-> ->].
  destruct (get_last_two s ps cs) as [-> ->].
  destruct (Z.ltb_spec (Z.of_nat (length (f ++ [pf; cf]))) 2) as [H|_];
    [rewrite length_app in H; simpl in H; lia|].
  destruct (Z.ltb_spec (Z.of_nat (length (s ++ [ps; cs]))) 2) as [H|_];
    [rewrite length_app in H; simpl in H; lia|].
  reflexivity.
Qed.
End Crossover.

Ltac float_ops :=
  cbv [num of_Z NaN Infinity num_neg num_add num_sub num_mul num_div
       Math_abs Math_sqrt num_lt num_le truthy binary64] in *.

Section Binary64Claims.
#[local] Existing Instance binary64.
Local Open Scope num_scope.

(** C6. On two series that end with [pf; cf] and [ps; cs], the crossover
    detection returns the bullish label exactly when [pf <= ps] and
    [cf > cs], the bearish label exactly when [pf >= ps] and [cf < cs],
    and nothing otherwise; the two conditions never hold together; and it
    returns nothing as soon as one series has fewer than two values. *)
Theorem detectCrossover_classification
    (f s : list num) (pf cf ps cs : num) :
  let fast := f ++ [pf; cf] in
  let slow := s ++ [ps; cs] in
  let bullish := (pf <=? ps) && (cf >? cs) in
  let bearish := (pf >=? ps) && (cf <? cs) in
  (SmaAlert.detectCrossover fast slow = Some "bullish" <-> bullish = true) /\
  (SmaAlert.detectCrossover fast slow = Some "bearish" <-> bearish = true) /\
  (SmaAlert.detectCrossover fast slow = None
   <-> bullish = false /\ bearish = false) /\
  ~ (bullish = true /\ bearish = true) /\
  (forall line1 line2 : list num,
      (length line1 < 2)%nat \/ (length line2 < 2)%nat ->
      SmaAlert.detectCrossover line1 line2 = None).
Proof.
  intros fast slow bullish bearish.
  assert (Hexcl : ~ (bullish = true /\ bearish = true)).
  { subst bullish bearish. intros [H1 H2].
    apply andb_prop in H1 as [_ H1]. apply andb_prop in H2 as [_ H2].
    float_ops. rewrite (ltb_asym _ _ H1) in H2. discriminate. }
  unfold SmaAlert.detectCrossover. subst fast slow.
  rewrite crossover_with_last_two.
  fold bullish. fold bearish.
  split; [|split; [|split; [|split]]].
  - destruct bullish, bearish; simpl; split; intros; congruence.
  - destruct bullish eqn:Eb, bearish eqn:Er; simpl; split; intros;
      try congruence.
    exfalso. apply Hexcl. now split.
  - destruct bullish, bearish; simpl;
      (split; [intros; try congruence; now split | intros [? ?]; congruence]).
  - exact Hexcl.
  - intros line1 line2 H. now apply crossover_with_short.
Qed.

(** The copy of the quick reference classifies in the same way, with the
    labels [above] and [below]. *)
Lemma detectCrossover_quick_reference (f s : list num) (pf cf ps cs : num) :
  Indicators.detectCrossover (f ++ [pf; cf]) (s ++ [ps; cs])
  = if (pf <=? ps) && (cf >? cs) then Some "above"
    else if (pf >=? ps) && (cf <? cs) then Some "below"
    else None.
Proof. apply crossover_with_last_two. Qed.
End Binary64Claims.

Section Binary64Breakout.
#[local] Existing Instance binary64.
Local Open Scope num_scope.

(** C8, the claim as stated fails: with a negative multiplier the bands are
    inverted, and a price below the lower band is reported as an upper
    breakout. *)
Lemma band_breakout_inverted_bands :
  let series := map (fun z => candle #z #1) [1; 2; 3] in
  let args := input [("period", "3"); ("stdDevMultiplier", "-2")] series in
  let lower := BollingerBreakout.lowerBand args (map close series) in
  (exists r, BollingerBreakout.run args = Some r
             /\ field r "currentPrice" = Some (VNum #3)
             /\ field r "lowerBand" = Some (VNum lower)
             /\ field r "breakout" = Some (VStr "upper"))
  /\ (#3 <? lower) = true.
Proof.
  split.
  - eexists. split; [reflexivity|].
    repeat split; vm_compute; reflexivity.
  - vm_compute. reflexivity.
Qed.

(** The classification, case by case, whatever the bands. *)
Lemma breakout_of_cases (price upper lower : num) :
  (BollingerBreakout.breakout_of price upper lower = Some "upper"
   <-> (price >? upper) = true) /\
  (BollingerBreakout.breakout_of price upper lower = Some "lower"
   <-> (price <? lower) = true /\ (price >? upper) = false) /\
  (BollingerBreakout.breakout_of price upper lower = None
   <-> (price <? lower) = false /\ (price >? upper) = false).
Proof.
  unfold BollingerBreakout.breakout_of.
  destruct (price >? upper), (price <? lower);
    (split; [|split]); split; try congruence; try tauto;
    intros [? ?]; congruence.
Qed.

(** C8, amended.  As long as the bands are not inverted (the upper band is
    not below the lower one), an upper breakout is reported exactly when the
    price is above the upper band and a lower breakout exactly when the
    price is below the lower band; a price equal to the upper band or to
    the lower band yields no breakout. *)
Theorem band_breakout_strict (price upper lower : num) :
  (upper <? lower) = false ->
  (BollingerBreakout.breakout_of price upper lower = Some "upper"
   <-> (price >? upper) = true) /\
  (BollingerBreakout.breakout_of price upper lower = Some "lower"
   <-> (price <? lower) = true) /\
  BollingerBreakout.breakout_of upper upper lower = None /\
  BollingerBreakout.breakout_of lower upper lower = None.
Proof.
  intros Hbands.
  destruct (breakout_of_cases price upper lower) as (Hup & Hlow & _).
  split; [exact Hup|]. split.
  - rewrite Hlow. split; [tauto|]. intros Hp. split; [exact Hp|].
    float_ops. destruct (upper <? price)%float eqn:E; [|reflexivity].
    rewrite (ltb_trans _ _ _ E Hp) in Hbands. discriminate.
  - unfold BollingerBreakout.breakout_of. float_ops.
    now rewrite !ltb_irrefl, Hbands.
Qed.

Lemma band_breakout_strict_witness :
  BollingerBreakout.breakout_of #3 #3 #1 = None.
Proof.
  destruct (band_breakout_strict #3 #3 #1 eq_refl) as (_ & _ & H & _).
  exact H.
Defined.
End Binary64Breakout.

(** ** Relative strength index *)

Lemma filter_all {A : Type} (f : A -> bool) (l : list A) :
  Forall (fun x => f x = true) l -> List.filter f l = l.
Proof.
  induction 1 as [|x l Hx _ IH]; simpl; [reflexivity|].
  now rewrite Hx, IH.
Qed.

Lemma filter_none {A : Type} (f : A -> bool) (l : list A) :
  Forall (fun x => f x = false) l -> List.filter f l = [].
Proof.
  induction 1 as [|x l Hx _ IH]; simpl; [reflexivity|].
  now rewrite Hx.
Qed.

Lemma get_calculateRsi {N : Number} (prices : list num) (period i : Z) :
  period <= i <= Z.of_nat (length (Indicators.price_changes prices)) ->
  get (Indicators.calculateRsi prices period) (i - period)
  = Some (Indicators.rsi_value
            (slice (Indicators.price_changes prices) (i - period) i) period).
Proof.
  intros Hi. unfold Indicators.calculateRsi.
  rewrite get_map, get_range_incl by lia. simpl.
  now replace (period + (i - period)) with i by lia.
Qed.

Section Binary64Rsi.
#[local] Existing Instance binary64.
Local Open Scope num_scope.

(** C1, the claim as stated fails: on the prices 1, 2, ..., 15 every
    change is a gain, and the value for period 14 is 50. *)
Lemma rsi_all_gains_is_50 :
  let prices := map of_Z [1; 2; 3; 4; 5; 6; 7; 8; 9; 10; 11; 12; 13; 14; 15] in
  Forall (fun c => (c >? #0) = true) (Indicators.price_changes prices) /\
  Indicators.calculateRsi prices 14 = [ #50 ] /\
  (#50 <? #100) = true.
Proof.
  split; [|split]; [|vm_compute; reflexivity|vm_compute; reflexivity].
  vm_compute. repeat constructor.
Qed.

(** With no loss in the window, the divisor put in the place of the zero
    average loss is 1. *)
Lemma rsi_value_all_gains (recentChanges : list num) (period : Z) :
  Forall (fun c => (c >? #0) = true) recentChanges ->
  Indicators.rsi_value recentChanges period
  = #100 - #100 / (#1 + (Indicators.sum recentChanges / #period) / #1).
Proof.
  intros Hgains. unfold Indicators.rsi_value.
  rewrite (filter_all (fun c => c >? #0) _ Hgains).
  rewrite (filter_none (fun c => c <? #0)).
  2:{ eapply List.Forall_impl; [|exact Hgains]. intros c Hc.
      float_ops. now apply ltb_asym. }
  replace (Indicators.num_or
             (Math_abs (Indicators.sum []) / #period) #1) with #1;
    [reflexivity|].
  unfold Indicators.num_or.
  change (truthy (Math_abs (Indicators.sum []) / #period))
    with (Binary64.truthy (zero / Binary64.of_Z period)%float).
  now rewrite zero_quotient_falsy.
Qed.

(** C1, amended.  For every window of [period] changes that are all gains,
    the value computed is [100 - 100 / (1 + avgGain / 1)], where [avgGain]
    is the sum of the window over [period]: the zero average loss is
    replaced by 1. *)
Theorem rsi_without_losses (prices : list num) (period i : Z) :
  let changes := Indicators.price_changes prices in
  let window := slice changes (i - period) i in
  period <= i <= Z.of_nat (length changes) ->
  Forall (fun c => (c >? #0) = true) window ->
  get (Indicators.calculateRsi prices period) (i - period)
  = Some (#100 - #100 / (#1 + (Indicators.sum window / #period) / #1)).
Proof.
  intros changes window Hi Hgains.
  rewrite get_calculateRsi by exact Hi.
  f_equal. now apply rsi_value_all_gains.
Qed.

Lemma rsi_without_losses_witness :
  let prices := map of_Z [1; 2; 3; 4; 5; 6; 7; 8; 9; 10; 11; 12; 13; 14; 15] in
  get (Indicators.calculateRsi prices 14) 0
  = Some (#100 - #100
                 / (#1 + (Indicators.sum (Indicators.price_changes prices) / #14)
                         / #1)).
Proof.
  intros prices.
  refine (rsi_without_losses prices 14 14 _ _).
  - vm_compute. split; discriminate.
  - vm_compute. repeat constructor.
Defined.

(** C9, the claim as stated fails.  With the period -1, which [parseInt]
    yields for the argument "-1", the first value is 200; and with a
    positive period and finite prices the sum of the gains and the sum of
    the losses of a window can both overflow to infinity, and their quotient
    is NaN. *)
Lemma rsi_out_of_range :
  (get (Indicators.calculateRsi (map of_Z [1; 2; 3; 4]) (-1)) 0 = Some #200
   /\ (#100 <? #200) = true) /\
  (let big := #(2 ^ 1023) in
   Indicators.calculateRsi [ #0; big; #0; big; #0 ] 4 = [NaN]).
Proof. repeat split; vm_compute; reflexivity. Qed.
End Binary64Rsi.

(** ** What the strategies do on short series *)

Section GenericRuns.
Context {N : Number}.
Local Open Scope num_scope.



(** The moving-average strategy has no such check: whenever it returns, the
    status is [ok]. *)
Lemma sma_alert_status_ok (args : FunctionArgs num) (r : Run num) :
  SmaAlert.run args = Some r -> field r "status" = Some (VStr "ok").
Proof.
  unfold SmaAlert.run.
  destruct (getCandles args (SmaAlert.ticker args)) as [series|];
    [|discriminate].
  cbv zeta.
  destruct (is_label _ "bullish"); [|destruct (is_label _ "bearish")];
    intros H; injection H as <-; reflexivity.
Qed.

Lemma get_in_range {A : Type} (l : list A) (i : Z) :
  (0 <= i < Z.of_nat (length l))%Z -> exists x, get l i = Some x.
Proof.
  intros Hi. unfold get. destruct (Z.ltb_spec i 0); [lia|].
  destruct (nth_error l (Z.to_nat i)) eqn:E; [eauto|].
  apply nth_error_None in E. lia.
Qed.
End GenericRuns.

Section Binary64Runs.
#[local] Existing Instance binary64.
Local Open Scope num_scope.


(** The RSI strategy has no check of the length either: on five candles the
    index is undefined and the status is [ok]. *)
Lemma rsi_alert_short_series :
  RsiAlert.run (input [] (map (fun z => candle #z #1) [1; 2; 3; 4; 5]))
  = Some {| emails := [];
            output :=
              [ ("status", VStr "ok"); ("ticker", VStr "BTCUSDT");
                ("rsi", VUndefined); ("signal", VNull);
                ("emailSent", VBool false);
                ("overbought", VNum #70); ("oversold", VNum #30) ] |}.
Proof. vm_compute. reflexivity. Qed.

(** C3, the claim as stated fails: twenty candles without volume followed
    by a candle with volume 5.  The average is 0, the ratio is Infinity,
    the status is [ok] and an e-mail is scheduled. *)
Lemma volume_spike_zero_average_ok :
  let series := repeat (candle #1 #0) 20 ++ [candle #1 #5] in
  exists r, VolumeSpike.run (input [] series) = Some r
            /\ field r "status" = Some (VStr "ok")
            /\ field r "avgVolume" = Some (VNum #0)
            /\ field r "volumeRatio" = Some (VNum Infinity)
            /\ length (emails r) = 1%nat.
Proof.
  eexists. split; [reflexivity|].
  repeat split; vm_compute; reflexivity.
Qed.

(** C3, amended.  When the series is long enough and the trailing average
    volume is zero, the strategy returns status [ok], and the ratio it
    puts in the record is NaN or an infinity. *)
Theorem volume_spike_zero_average (args : FunctionArgs num) (series : list (Candle num)) :
  getCandles args (VolumeSpike.ticker args) = Some series ->
  (Z.of_nat (length series) <? VolumeSpike.volumePeriod args + 1)%Z = false ->
  PrimFloat.is_zero (VolumeSpike.avgVolume args series) = true ->
  exists r,
    VolumeSpike.run args = Some r
    /\ field r "status" = Some (VStr "ok")
    /\ field r "volumeRatio" = Some (VNum (VolumeSpike.volumeRatio args series))
    /\ PrimFloat.is_finite (VolumeSpike.volumeRatio args series) = false.
Proof.
  intros Hc Hlen Hzero.
  assert (Hratio : PrimFloat.is_finite (VolumeSpike.volumeRatio args series) = false).
  { unfold VolumeSpike.volumeRatio. float_ops. now apply quotient_by_zero. }
  unfold VolumeSpike.run. rewrite Hc, Hlen.
  destruct (VolumeSpike.volumeRatio args series >=? VolumeSpike.spikeMultiplier args)
    eqn:Hspike.
  - destruct (VolumeSpike.currentVolume series) as [current|] eqn:Hcur.
    + eexists. split; [reflexivity|]. split; [reflexivity|]. split; [reflexivity|exact Hratio].
    + exfalso. unfold VolumeSpike.volumeRatio in Hspike. rewrite Hcur in Hspike.
      simpl Indicators.toNum in Hspike. float_ops.
      rewrite nan_quotient, leb_nan_r in Hspike. discriminate.
  - eexists. split; [reflexivity|]. split; [reflexivity|]. split; [reflexivity|exact Hratio].
Qed.

Lemma volume_spike_zero_average_witness :
  let series := repeat (candle #1 #0) 20 ++ [candle #1 #5] in
  exists r,
    VolumeSpike.run (input [] series) = Some r
    /\ field r "status" = Some (VStr "ok")
    /\ field r "volumeRatio"
       = Some (VNum (VolumeSpike.volumeRatio (input [] series) series))
    /\ PrimFloat.is_finite (VolumeSpike.volumeRatio (input [] series) series)
       = false.
Proof.
  intros series.
  apply (volume_spike_zero_average (input [] series) series);
    vm_compute; reflexivity.
Defined.

(** C4, the claim as stated fails: five candles and no [threshold]
    argument.  The status is [ok]. *)
Lemma price_threshold_missing_is_ok :
  PriceThreshold.run (input [] (map (fun z => candle #z #1) [1; 2; 3; 4; 5]))
  = Some {| emails := [];
            output :=
              [ ("status", VStr "ok"); ("ticker", VStr "BTCUSDT");
                ("currentPrice", VNum #5); ("threshold", VUndefined);
                ("direction", VStr "above"); ("triggered", VBool false);
                ("emailSent", VBool false) ] |}.
Proof. vm_compute. reflexivity. Qed.

(** C4, amended.  When the [threshold] argument is missing, no e-mail is
    scheduled; the status is [error] only for a series of fewer than two
    candles, and otherwise it is [ok], with an undefined threshold and
    nothing triggered. *)
Theorem price_threshold_missing (args : FunctionArgs num) (series : list (Candle num)) :
  callArguments args !! "threshold" = None ->
  getCandles args (PriceThreshold.ticker args) = Some series ->
  exists r,
    PriceThreshold.run args = Some r
    /\ emails r = []
    /\ field r "status"
       = Some (VStr (if (Z.of_nat (length series) <? 2)%Z then "error" else "ok"))
    /\ ((2 <= Z.of_nat (length series))%Z ->
        field r "threshold" = Some VUndefined
        /\ field r "triggered" = Some (VBool false)).
Proof.
  intros Hmissing Hc. unfold PriceThreshold.run. rewrite Hc.
  destruct (Z.ltb_spec (Z.of_nat (length series)) 2) as [Hshort|Hlong].
  - eexists. repeat split; try reflexivity; lia.
  - destruct (get_in_range series (Z.of_nat (length series) - 1)) as (cur & ->);
      [lia|].
    destruct (get_in_range series (Z.of_nat (length series) - 2)) as (prev & ->);
      [lia|].
    assert (Hthr : PriceThreshold.threshold args = None).
    { unfold PriceThreshold.threshold, getCallArgument. now rewrite Hmissing. }
    cbv zeta. rewrite Hthr. simpl Indicators.toNum. float_ops.
    rewrite leb_nan_r, leb_nan_l, !andb_false_r. simpl.
    eexists. repeat split; reflexivity.
Qed.

Lemma price_threshold_missing_witness :
  let args := input [] (map (fun z => candle #z #1) [1; 2; 3; 4; 5]) in
  exists r,
    PriceThreshold.run args = Some r
    /\ emails r = []
    /\ field r "status" = Some (VStr "ok")
    /\ ((2 <= 5)%Z ->
        field r "threshold" = Some VUndefined
        /\ field r "triggered" = Some (VBool false)).
Proof.
  intros args.
  refine (price_threshold_missing args
            (map (fun z => candle #z #1) [1; 2; 3; 4; 5]) _ _);
    vm_compute; reflexivity.
Defined.
End Binary64Runs.

(** ** Defaults of the call arguments *)

Section Defaults.
Context {N : Number}.

Lemma getCandles_with_argument (name raw : string) (args : FunctionArgs num)
    (ticker : string) :
  getCandles (with_argument name raw args) ticker
  = getCandles (without_argument name args) ticker.
Proof. reflexivity. Qed.

(** A parameter whose parsed value is falsy reads as its default, which is
    also what it reads as when it is absent; the other parameters are not
    affected. *)
Lemma or_else_with_falsy {T V : Type} `{Truthy T V}
    (args : FunctionArgs num) (name raw name' : string)
    (parser : string -> T) (d : V) :
  (name' = name -> falsy (parser raw) = true) ->
  getCallArgument (with_argument name raw args) name' parser ||| d
  = getCallArgument (without_argument name args) name' parser ||| d.
Proof.
  intros Hfalsy. unfold getCallArgument, with_argument, without_argument.
  simpl callArguments.
  destruct (decide (name' = name)) as [->|Hne].
  - rewrite lookup_insert_eq, lookup_delete_eq. unfold or_else.
    specialize (Hfalsy eq_refl). unfold falsy in Hfalsy.
    now destruct (truthy_value (parser raw)).
  - now rewrite lookup_insert_ne, lookup_delete_ne by congruence.
Qed.





(** The falsy results of [parseInt] are NaN and 0. *)
Lemma falsy_parseInt (raw : string) :
  falsy (parseInt raw) = true <-> parseInt raw = None \/ parseInt raw = Some 0.
Proof.
  unfold falsy, truthy_value, truthy_int.
  destruct (parseInt raw) as [z|]; [|tauto].
  destruct (Z.eqb_spec z 0) as [->|Hz]; [tauto|].
  split; [discriminate|]. intros [E|E]; congruence.
Qed.

(** The falsy text is the empty string. *)
Lemma falsy_string (s : string) : falsy s = true <-> s = "".
Proof. unfold falsy. destruct s; simpl; split; congruence. Qed.
End Defaults.


(** ** The claims on the moving averages *)

Section MovingAverages.
Context {N : Number}.
Local Open Scope num_scope.

(** C5. For a period [p >= 1] and data of length [n], the simple moving
    average has [max 0 (n - p + 1)] elements, and its element [i] is the
    arithmetic mean of the window [data[i .. i+p)]. *)
Theorem calculateSma_length_and_mean (data : list num) (p : Z) :
  (1 <= p)%Z ->
  let n := Z.of_nat (length data) in
  Z.of_nat (length (Indicators.calculateSma data p)) = Z.max 0 (n - p + 1)
  /\ forall i : Z,
      (0 <= i < n - p + 1)%Z ->
      get (Indicators.calculateSma data p) i
      = Some (spec_mean (spec_window data i p))
      /\ Z.of_nat (length (spec_window data i p)) = p
      /\ forall j : Z, (0 <= j < p)%Z ->
                       get (spec_window data i p) j = get data (i + j).
Proof.
  intros Hp n. split.
  - unfold Indicators.calculateSma.
    rewrite length_map, length_range_incl. fold n. lia.
  - intros i Hi. split; [now apply get_calculateSma|]. split.
    + rewrite length_spec_window by (fold n; lia). lia.
    + intros j Hj. apply get_spec_window; lia.
Qed.

(** C7, at the failing input: the empty series.  The assignment
    [ema[0] = data[0]] stores [undefined] at index 0, so the output has one
    element where the input has none. *)
Theorem calculateEma_empty_input (period : Z) :
  Indicators.calculateEma [] period = [None]
  /\ length (Indicators.calculateEma [] period) = 1%nat
  /\ length (@nil num) = 0%nat.
Proof. repeat split. Qed.

(** On a series that is not empty the output is as the specification says:
    as long as the input, seeded with its first value, every later element
    obtained from its predecessor by the recurrence. *)
Lemma calculateEma_recurrence (d : num) (rest : list num) (period : Z) :
  let data := d :: rest in
  let ema := Indicators.calculateEma data period in
  let k := #2 / (#period + #1) in
  length ema = length data
  /\ get_hole ema 0 = Some d
  /\ forall (i : Z) (x : num),
      (1 <= i)%Z -> get data i = Some x ->
      exists before,
        get_hole ema (i - 1) = Some before
        /\ get_hole ema i = Some (x * k + before * (#1 - k)).
Proof.
  intros data ema k. subst ema data.
  rewrite calculateEma_nonempty. fold k. split; [|split].
  - rewrite length_map. simpl. now rewrite length_spec_ema.
  - reflexivity.
  - intros i x Hi Hx.
    rewrite !get_hole_map_Some.
    replace i with (Z.of_nat (S (Z.to_nat (i - 1)))) in * by lia.
    replace (Z.of_nat (S (Z.to_nat (i - 1))) - 1)%Z
      with (Z.of_nat (Z.to_nat (i - 1))) by lia.
    rewrite get_nat in Hx. simpl in Hx.
    rewrite !get_nat.
    exact (spec_ema_step k d rest _ x Hx).
Qed.
End MovingAverages.

Lemma calculateSma_length_and_mean_witness :
  let data := map (of_Z (Number := binary64)) [1; 2; 3; 4; 5; 6; 7; 8; 9; 10] in
  (Z.of_nat (length (Indicators.calculateSma (N := binary64) data 3)) = 8
   /\ forall i : Z,
       0 <= i < 8 ->
       get (Indicators.calculateSma (N := binary64) data 3) i
       = Some (spec_mean (N := binary64) (spec_window data i 3))
       /\ Z.of_nat (length (spec_window data i 3)) = 3
       /\ forall j : Z, 0 <= j < 3 ->
                        get (spec_window data i 3) j = get data (i + j))
  /\ map (fun i => spec_mean (N := binary64) (spec_window data i 3))
         [0; 1; 2; 3; 4; 5; 6; 7]
     = map (of_Z (Number := binary64)) [2; 3; 4; 5; 6; 7; 8; 9].
Proof.
  intros data. split.
  - apply (calculateSma_length_and_mean (N := binary64) data 3). lia.
  - vm_compute. reflexivity.
Defined.

(** ** Rounding of doubles

    The result of [binary_round_aux], and the bounds it keeps. *)

Lemma fexp_fexp64 (e : Z) : fexp prec emax e = fexp64 e.
Proof. reflexivity. Qed.

Lemma shr_1_nonneg (m : Z) (r s : bool) :
  0 <= m ->
  shr_1 {| shr_m := m; shr_r := r; shr_s := s |}
  = {| shr_m := m / 2; shr_r := Z.odd m; shr_s := r || s |}.
Proof.
  intros Hm. rewrite <- Z.div2_div.
  destruct m as [|[p|p|]|p]; try reflexivity; lia.
Qed.

Lemma iter_pos_nat {A : Type} (f : A -> A) (p : positive) (x : A) :
  SpecFloat.iter_pos f p x = Nat.iter (Pos.to_nat p) f x.
Proof.
  revert x. induction p as [p IH|p IH|]; intros x; simpl SpecFloat.iter_pos.
  - rewrite !IH, Pos2Nat.inj_xI.
    replace (S (2 * Pos.to_nat p))%nat
      with (Pos.to_nat p + (Pos.to_nat p + 1))%nat by lia.
    rewrite !Nat.iter_add. reflexivity.
  - rewrite !IH, Pos2Nat.inj_xO.
    replace (2 * Pos.to_nat p)%nat with (Pos.to_nat p + Pos.to_nat p)%nat by lia.
    now rewrite Nat.iter_add.
  - reflexivity.
Qed.

Lemma located_shr_1 (N Q : Z) (rec : shr_record) :
  0 <= N -> 0 < Q -> located N Q rec -> located N (Q * 2) (shr_1 rec).
Proof.
  intros HN HQ (Hm & Hr & Hs). destruct rec as [m r s].
  cbn [shr_m shr_r shr_s] in Hm, Hr, Hs.
  assert (Hm0 : 0 <= m) by (subst m; apply Z.div_pos; lia).
  rewrite shr_1_nonneg by exact Hm0.
  pose proof (Z.mod_pos_bound N Q HQ) as Hrem.
  pose proof (Z.mod_pos_bound m 2 ltac:(lia)) as Hb.
  assert (Hmod : N mod (Q * 2) = N mod Q + Q * (m mod 2))
    by (subst m; apply Z.rem_mul_r; lia).
  assert (Hcase : m mod 2 = 0 \/ m mod 2 = 1) by lia.
  unfold located. cbn [shr_m shr_r shr_s]. rewrite Hmod, Zodd_mod.
  repeat split.
  - subst m. now rewrite Z.div_div by lia.
  - destruct Hcase as [E|E]; rewrite E; cbn [Z.eqb];
      destruct (Z.leb_spec (Q * 2) (2 * (N mod Q + Q * 0)));
      destruct (Z.leb_spec (Q * 2) (2 * (N mod Q + Q * 1)));
      try reflexivity; lia.
  - rewrite Hr, Hs.
    destruct Hcase as [E|E]; rewrite E;
      destruct (Z.leb_spec Q (2 * (N mod Q)));
      destruct (Z.eqb_spec (N mod Q) 0);
      destruct (Z.eqb_spec (2 * (N mod Q)) Q);
      destruct (Z.eqb_spec (N mod Q + Q * 0) 0);
      destruct (Z.eqb_spec (N mod Q + Q * 1) 0);
      destruct (Z.eqb_spec (2 * (N mod Q + Q * 0)) (Q * 2));
      destruct (Z.eqb_spec (2 * (N mod Q + Q * 1)) (Q * 2));
      cbn [negb orb]; try reflexivity; lia.
Qed.

Lemma located_iter (N Q : Z) (rec : shr_record) (n : nat) :
  0 <= N -> 0 < Q -> located N Q rec ->
  located N (Q * 2 ^ Z.of_nat n) (Nat.iter n shr_1 rec).
Proof.
  intros HN HQ H. induction n as [|n IH].
  - simpl. now rewrite Z.mul_1_r.
  - rewrite Nat2Z.inj_succ, Z.pow_succ_r by lia. simpl Nat.iter.
    replace (Q * (2 * 2 ^ Z.of_nat n)) with (Q * 2 ^ Z.of_nat n * 2) by lia.
    apply located_shr_1; [exact HN| |exact IH].
    apply Z.mul_pos_pos; [exact HQ|]. apply Z.pow_pos_nonneg; lia.
Qed.

Lemma shr_located (N Q : Z) (rec : shr_record) (e n : Z) :
  0 <= N -> 0 < Q -> located N Q rec ->
  exists rec', shr rec e n = (rec', e + Z.max 0 n)
               /\ located N (Q * 2 ^ Z.max 0 n) rec'.
Proof.
  intros HN HQ H. destruct n as [|p|p]; simpl shr.
  - exists rec. rewrite Z.add_0_r, Z.mul_1_r. now split.
  - exists (SpecFloat.iter_pos shr_1 p rec). split.
    + f_equal; lia.
    + rewrite iter_pos_nat.
      replace (Z.max 0 (Z.pos p)) with (Z.of_nat (Pos.to_nat p)) by lia.
      now apply located_iter.
  - exists rec. replace (Z.max 0 (Z.neg p)) with 0 by lia.
    rewrite Z.add_0_r, Z.mul_1_r. now split.
Qed.

Lemma located_exact (m : Z) :
  located m 1 (shr_record_of_loc m loc_Exact).
Proof.
  unfold located. simpl. rewrite Z.div_1_r, Z.mod_1_r. now repeat split.
Qed.

Lemma new_location_compare (m2 r : Z) :
  new_location m2 r
  = if r =? 0 then loc_Exact else loc_Inexact (2 * r ?= m2).
Proof.
  unfold new_location, new_location_even, new_location_odd.
  destruct (Z.even m2) eqn:Heven; [reflexivity|].
  destruct (Z.eqb_spec r 0) as [E|E]; [reflexivity|]. f_equal.
  assert (Hodd : 2 * r <> m2).
  { intros E'. rewrite <- E', Z.even_mul in Heven. discriminate. }
  destruct (Z.compare_spec (2 * r + 1) m2);
    destruct (Z.compare_spec (2 * r) m2); try reflexivity; lia.
Qed.

Lemma located_new_location (m' m2 : Z) :
  0 <= m' -> 0 < m2 ->
  located m' m2 (shr_record_of_loc (m' / m2) (new_location m2 (m' mod m2))).
Proof.
  intros Hm' Hm2.
  pose proof (Z.mod_pos_bound m' m2 Hm2) as Hrem.
  rewrite new_location_compare. unfold located.
  destruct (Z.eqb_spec (m' mod m2) 0) as [E|E];
    [|destruct (Z.compare_spec (2 * (m' mod m2)) m2)];
    cbn [shr_record_of_loc shr_m shr_r shr_s]; repeat split;
    destruct (Z.leb_spec m2 (2 * (m' mod m2)));
    destruct (Z.eqb_spec (2 * (m' mod m2)) m2);
    cbn [negb orb]; try reflexivity; lia.
Qed.

(** ** Digits *)

Lemma digits2_pos_bounds (m : positive) :
  2 ^ (Z.pos (digits2_pos m) - 1) <= Z.pos m < 2 ^ Z.pos (digits2_pos m).
Proof.
  induction m as [m IH|m IH|]; simpl digits2_pos.
  - rewrite Pos2Z.inj_succ.
    replace (Z.succ (Z.pos (digits2_pos m)) - 1)
      with (Z.succ (Z.pos (digits2_pos m) - 1)) by lia.
    rewrite !Z.pow_succ_r by lia. lia.
  - rewrite Pos2Z.inj_succ.
    replace (Z.succ (Z.pos (digits2_pos m)) - 1)
      with (Z.succ (Z.pos (digits2_pos m) - 1)) by lia.
    rewrite !Z.pow_succ_r by lia. lia.
  - simpl. lia.
Qed.

Lemma Zdigits2_bounds (m : Z) :
  0 < m -> 2 ^ (Zdigits2 m - 1) <= m < 2 ^ Zdigits2 m /\ 0 < Zdigits2 m.
Proof.
  destruct m as [|p|p]; try lia. intros _. simpl.
  split; [apply digits2_pos_bounds|lia].
Qed.

Lemma Zdigits2_unique (m d : Z) :
  2 ^ (d - 1) <= m < 2 ^ d -> 0 < d -> Zdigits2 m = d.
Proof.
  intros Hm Hd.
  assert (0 < m) by (pose proof (Z.pow_pos_nonneg 2 (d - 1)); lia).
  destruct (Zdigits2_bounds m H) as [Hb Hpos].
  destruct (Z.lt_trichotomy (Zdigits2 m) d) as [L|[E|G]]; [|exact E|].
  - assert (2 ^ Zdigits2 m <= 2 ^ (d - 1)) by (apply Z.pow_le_mono_r; lia). lia.
  - assert (2 ^ d <= 2 ^ (Zdigits2 m - 1)) by (apply Z.pow_le_mono_r; lia). lia.
Qed.

Lemma shr_nonpos (rec : shr_record) (e n : Z) :
  n <= 0 -> shr rec e n = (rec, e).
Proof. destruct n; try reflexivity; lia. Qed.

Lemma round_nearest_even_located (N Q : Z) (rec : shr_record) :
  0 <= N -> 0 < Q -> located N Q rec ->
  N / Q <= round_nearest_even (shr_m rec) (loc_of_shr_record rec) <= N / Q + 1
  /\ (N mod Q = 0 ->
      round_nearest_even (shr_m rec) (loc_of_shr_record rec) = N / Q).
Proof.
  intros HN HQ (Hm & Hr & Hs). destruct rec as [m r s].
  cbn [shr_m shr_r shr_s] in *. subst m.
  destruct r, s; cbn [loc_of_shr_record round_nearest_even]; split;
    try lia; try (destruct (Z.even (N / Q)); lia); intros E; rewrite E in *;
    try reflexivity;
    try (destruct (Z.leb_spec Q (2 * 0)); [lia|discriminate]);
    try discriminate.
Qed.

Lemma pow_split (a b : Z) : 0 <= a <= b -> 2 ^ b = 2 ^ a * 2 ^ (b - a).
Proof.
  intros H. rewrite <- Z.pow_add_r by lia. f_equal. lia.
Qed.

Lemma pow2_pos (a : Z) : 0 <= a -> 0 < 2 ^ a.
Proof. intros H. apply Z.pow_pos_nonneg; lia. Qed.

(** The mantissa that is left once [mx], of [Zdigits2 mx] digits, is
    shifted to the exponent of its format. *)
Lemma shifted_mantissa (mx ex : Z) :
  0 <= mx -> ex <= fexp64 (Zdigits2 mx + ex) ->
  let e1 := fexp64 (Zdigits2 mx + ex) in
  mx / 2 ^ (e1 - ex) < 2 ^ 53
  /\ (-1074 < e1 -> 2 ^ 52 <= mx / 2 ^ (e1 - ex))
  /\ -1074 <= e1.
Proof.
  intros Hmx Hal e1. unfold fexp64 in *. subst e1.
  set (D := Zdigits2 mx) in *.
  assert (Hn : 0 <= Z.max (D + ex - 53) (-1074) - ex) by lia.
  pose proof (pow2_pos _ Hn) as HP.
  split; [|split; [|lia]].
  - apply Z.div_lt_upper_bound; [exact HP|].
    destruct (Z.eq_dec mx 0) as [->|Hne].
    + apply Z.mul_pos_pos; [exact HP|reflexivity].
    + destruct (Zdigits2_bounds mx ltac:(lia)) as [Hb HD]. fold D in Hb, HD.
      destruct (Z.le_gt_cases D 53) as [Hle|Hgt].
      * assert (2 ^ D <= 2 ^ 53) by (apply Z.pow_le_mono_r; lia). nia.
      * assert (0 <= D - 53 <= Z.max (D + ex - 53) (-1074) - ex) by lia.
        assert (2 ^ (D - 53) <= 2 ^ (Z.max (D + ex - 53) (-1074) - ex))
          by (apply Z.pow_le_mono_r; lia).
        rewrite (pow_split 53 D) in Hb by lia. nia.
  - intros He.
    assert (E : Z.max (D + ex - 53) (-1074) - ex = D - 53) by lia.
    rewrite E in *.
    assert (Hpos : 0 < mx).
    { destruct (Z.eq_dec mx 0) as [->|Hne]; [|lia].
      unfold D in *. simpl in *. lia. }
    destruct (Zdigits2_bounds mx Hpos) as [Hb HD]. fold D in Hb, HD.
    apply Z.div_le_lower_bound; [exact HP|].
    replace (D - 1) with (52 + (D - 53)) in Hb by lia.
    rewrite Z.pow_add_r in Hb by lia. lia.
Qed.

Lemma binary_round_aux_finish (sx : bool) (N Q mx ex : Z) (lx : location) :
  0 <= N -> 0 < Q -> mx = N / Q ->
  located N Q (shr_record_of_loc mx lx) ->
  ex <= fexp64 (Zdigits2 mx + ex) ->
  let e1 := fexp64 (Zdigits2 mx + ex) in
  let Q1 := Q * 2 ^ (e1 - ex) in
  exists m1,
    N / Q1 <= m1 <= N / Q1 + 1
    /\ (N mod Q1 = 0 -> m1 = N / Q1)
    /\ N / Q1 < 2 ^ 53
    /\ (-1074 < e1 -> 2 ^ 52 <= N / Q1)
    /\ -1074 <= e1
    /\ binary_round_aux prec emax sx mx ex lx = finish sx m1 e1.
Proof.
  intros HN HQ Hmx Hloc Hal e1 Q1.
  assert (Hmx0 : 0 <= mx) by (subst mx; apply Z.div_pos; lia).
  destruct (shifted_mantissa mx ex Hmx0 Hal) as (Hlt & Hge & Hemin).
  fold e1 in Hlt, Hge, Hemin.
  assert (Hdiv : N / Q1 = mx / 2 ^ (e1 - ex)).
  { unfold Q1. subst mx. rewrite Z.div_div; [reflexivity|lia|].
    apply pow2_pos. unfold e1. lia. }
  rewrite <- Hdiv in Hlt, Hge.
  unfold binary_round_aux, shr_fexp. rewrite fexp_fexp64. fold e1.
  destruct (shr_located N Q _ ex (e1 - ex) HN HQ Hloc) as (rec1 & Hshr & Hloc1).
  rewrite Z.max_r in Hshr, Hloc1 by (unfold e1; lia).
  replace (ex + (e1 - ex)) with e1 in Hshr by lia.
  rewrite Hshr. fold Q1 in Hloc1.
  assert (HQ1 : 0 < Q1).
  { unfold Q1. apply Z.mul_pos_pos; [exact HQ|]. apply pow2_pos.
    unfold e1. lia. }
  destruct (round_nearest_even_located N Q1 rec1 HN HQ1 Hloc1) as [Hb Hex].
  set (m1 := round_nearest_even (shr_m rec1) (loc_of_shr_record rec1)) in *.
  exists m1. repeat (split; [assumption || lia|]).
  assert (Hm1 : 0 <= m1).
  { assert (0 <= N / Q1) by (apply Z.div_pos; lia). lia. }
  rewrite fexp_fexp64. unfold finish.
  change (2 ^ 53) with 9007199254740992 in *.
  change (2 ^ 52) with 4503599627370496 in *.
  destruct (Z.eqb_spec m1 0) as [E0|E0].
  - rewrite E0. rewrite shr_nonpos by (unfold fexp64; simpl Zdigits2; lia).
    reflexivity.
  - destruct (Z.ltb_spec m1 9007199254740992) as [Hs|Hs].
    + destruct (Zdigits2_bounds m1 ltac:(lia)) as [Hd HD].
      assert (Zdigits2 m1 <= 53).
      { destruct (Z.le_gt_cases (Zdigits2 m1) 53) as [L|G]; [exact L|].
        assert (2 ^ 53 <= 2 ^ (Zdigits2 m1 - 1))
          by (apply Z.pow_le_mono_r; lia).
        change (2 ^ 53) with 9007199254740992 in *. lia. }
      rewrite shr_nonpos by (unfold fexp64; lia).
      cbn [shr_record_of_loc shr_m].
      destruct m1 as [|p|p]; try lia. reflexivity.
    + assert (E : m1 = 9007199254740992) by lia. rewrite E.
      replace (fexp64 (Zdigits2 9007199254740992 + e1) - e1) with 1
        by (unfold fexp64; simpl Zdigits2; lia).
      reflexivity.
Qed.

Lemma vle_scaled (m1 e1 m2 e2 c : Z) :
  c <= e1 -> c <= e2 ->
  (vle m1 e1 m2 e2 <-> m1 * 2 ^ (e1 - c) <= m2 * 2 ^ (e2 - c)).
Proof.
  intros H1 H2. unfold vle.
  set (k := Z.min e1 e2 - c).
  assert (Hk : 0 <= k) by (unfold k; lia).
  pose proof (pow2_pos k Hk) as HP.
  replace (e1 - c) with ((e1 - Z.min e1 e2) + k) by (unfold k; lia).
  replace (e2 - c) with ((e2 - Z.min e1 e2) + k) by (unfold k; lia).
  rewrite !Z.pow_add_r by lia.
  rewrite !Z.mul_assoc.
  split; intros H.
  - apply Z.mul_le_mono_nonneg_r; lia.
  - apply Z.mul_le_mono_pos_r in H; lia.
Qed.

Lemma valid_canonical (s : bool) (m : positive) (e : Z) :
  valid_binary (S754_finite s m e) = true -> canonical (Z.pos m) e.
Proof.
  unfold valid_binary, bounded, canonical_mantissa. intros H.
  apply andb_true_iff in H as [Hc He].
  apply Z.eqb_eq in Hc. apply Z.leb_le in He.
  rewrite fexp_fexp64 in Hc. unfold fexp64 in Hc.
  change (emax - prec) with 971 in He.
  pose proof (digits2_pos_bounds m) as Hb.
  set (D := Z.pos (digits2_pos m)) in *.
  assert (HD : D <= 53) by lia.
  unfold canonical. split; [|split; [lia|]].
  - split; [lia|].
    assert (2 ^ D <= 2 ^ 53) by (apply Z.pow_le_mono_r; lia). lia.
  - intros Hn. assert (E : D = 53) by lia. rewrite E in Hb.
    exact (proj1 Hb).
Qed.

Lemma SFleb_finite (a b : positive) (ea eb : Z) :
  SFleb (S754_finite false a ea) (S754_finite false b eb) = true
  <-> ea < eb \/ (ea = eb /\ Z.pos a <= Z.pos b).
Proof.
  unfold SFleb, SFcompare.
  change (Pos.compare_cont Eq a b) with (Pos.compare a b).
  destruct (Z.compare_spec ea eb) as [E|L|G].
  - destruct (Pos.compare_spec a b) as [E'|L'|G'];
      (split; [intros H; try discriminate; right; split; lia
              |intros [H|[_ H]]; try reflexivity; lia]).
  - split; [intros _; now left|reflexivity].
  - split; [discriminate|lia].
Qed.

Section Bounds.
Variables (N Q mx ex : Z) (lx : location) (mB eB : Z).
Hypothesis HN : 0 <= N.
Hypothesis HQ : 0 < Q.
Hypothesis Hmx : mx = N / Q.
Hypothesis Hloc : located N Q (shr_record_of_loc mx lx).
Hypothesis Hal : ex <= fexp64 (Zdigits2 mx + ex).
Hypothesis HB : canonical mB eB.

Lemma round_le :
  vle N ex (Q * mB) eB ->
  SFleb (binary_round_aux prec emax false mx ex lx)
        (S754_finite false (Z.to_pos mB) eB) = true.
Proof.
  intros Hv.
  destruct (binary_round_aux_finish false N Q mx ex lx HN HQ Hmx Hloc Hal)
    as (m1 & Hm1 & Hexact & Hlt & Hge & Hemin & ->).
  set (e1 := fexp64 (Zdigits2 mx + ex)) in *.
  set (P := 2 ^ (e1 - ex)) in *.
  assert (HP : 0 < P) by (apply pow2_pos; lia).
  set (Q1 := Q * P) in *.
  assert (HQ1 : 0 < Q1) by (apply Z.mul_pos_pos; assumption).
  destruct HB as ((HmB0 & HmB) & (HeB0 & HeB) & Hnorm).
  change (2 ^ 53) with 9007199254740992 in *.
  change (2 ^ 52) with 4503599627370496 in *.
  pose proof (Z.mul_div_le N Q1 HQ1) as Hfloor.
  pose proof (Z.mod_pos_bound N Q1 HQ1) as Hrem.
  pose proof (Z.div_mod N Q1 ltac:(lia)) as Hdm.
  assert (Hm1pos : 0 <= N / Q1) by (apply Z.div_pos; lia).
  destruct (Z.lt_trichotomy e1 eB) as [Hlow|[Heq|Hhigh]].
  - (* below the exponent of the bound *)
    specialize (Hnorm ltac:(lia)).
    unfold finish. change (2 ^ 53) with 9007199254740992.
    change (2 ^ 52) with 4503599627370496.
    destruct (Z.eqb_spec m1 0); [reflexivity|].
    destruct (Z.ltb_spec m1 9007199254740992).
    + destruct (Z.leb_spec e1 971); [|lia].
      apply SFleb_finite. left. lia.
    + destruct (Z.leb_spec (e1 + 1) 971); [|lia].
      apply SFleb_finite. rewrite !Z2Pos.id by lia. lia.
  - (* at the exponent of the bound *)
    apply (vle_scaled _ _ _ _ ex) in Hv; [|lia|lia].
    rewrite Z.sub_diag, Z.pow_0_r, Z.mul_1_r in Hv.
    rewrite <- Heq in Hv. fold P in Hv.
    assert (HNle : N <= Q1 * mB) by (unfold Q1; lia).
    assert (Hm1le : m1 <= mB).
    { destruct (Z.le_gt_cases (N / Q1 + 1) mB) as [L|G]; [lia|].
      assert (N / Q1 <= mB) by (apply Z.div_le_upper_bound; lia).
      assert (Em : N / Q1 = mB) by lia.
      rewrite Hexact; [lia|]. rewrite Em in Hdm. lia. }
    unfold finish. change (2 ^ 53) with 9007199254740992.
    destruct (Z.eqb_spec m1 0); [reflexivity|].
    destruct (Z.ltb_spec m1 9007199254740992); [|lia].
    destruct (Z.leb_spec e1 971); [|lia].
    apply SFleb_finite. rewrite !Z2Pos.id by lia. lia.
  - (* above the exponent of the bound: the value exceeds the bound *)
    exfalso. specialize (Hge ltac:(lia)).
    assert (HNge : 4503599627370496 * Q1 <= N) by nia.
    destruct (Z.le_gt_cases ex eB) as [Hc|Hc].
    + apply (vle_scaled _ _ _ _ ex) in Hv; [|lia|lia].
      rewrite Z.sub_diag, Z.pow_0_r, Z.mul_1_r in Hv.
      unfold Q1, P in HNge.
      rewrite (pow_split (eB - ex) (e1 - ex)) in HNge by lia.
      replace (e1 - ex - (eB - ex)) with (e1 - eB) in HNge by lia.
      assert (H2 : 2 ^ 1 <= 2 ^ (e1 - eB)) by (apply Z.pow_le_mono_r; lia).
      change (2 ^ 1) with 2 in H2.
      pose proof (pow2_pos (eB - ex) ltac:(lia)) as HA.
      set (A := 2 ^ (eB - ex)) in *. set (C := 2 ^ (e1 - eB)) in *.
      assert (0 < Q * A) by (apply Z.mul_pos_pos; lia).
      nia.
    + apply (vle_scaled _ _ _ _ eB) in Hv; [|lia|lia].
      rewrite Z.sub_diag, Z.pow_0_r, Z.mul_1_r in Hv.
      assert (H2 : 2 ^ 1 <= 2 ^ (ex - eB)) by (apply Z.pow_le_mono_r; lia).
      change (2 ^ 1) with 2 in H2.
      set (A := 2 ^ (ex - eB)) in *.
      unfold Q1 in HNge. nia.
Qed.

Lemma round_ge :
  vle (Q * mB) eB N ex ->
  SFleb (S754_finite false (Z.to_pos mB) eB)
        (binary_round_aux prec emax false mx ex lx) = true.
Proof.
  intros Hv.
  destruct (binary_round_aux_finish false N Q mx ex lx HN HQ Hmx Hloc Hal)
    as (m1 & Hm1 & Hexact & Hlt & Hge & Hemin & ->).
  set (e1 := fexp64 (Zdigits2 mx + ex)) in *.
  set (P := 2 ^ (e1 - ex)) in *.
  assert (HP : 0 < P) by (apply pow2_pos; lia).
  set (Q1 := Q * P) in *.
  assert (HQ1 : 0 < Q1) by (apply Z.mul_pos_pos; assumption).
  destruct HB as ((HmB0 & HmB) & (HeB0 & HeB) & Hnorm).
  change (2 ^ 53) with 9007199254740992 in *.
  change (2 ^ 52) with 4503599627370496 in *.
  pose proof (Z.mul_div_le N Q1 HQ1) as Hfloor.
  pose proof (Z.mod_pos_bound N Q1 HQ1) as Hrem.
  pose proof (Z.div_mod N Q1 ltac:(lia)) as Hdm.
  assert (Hm1pos : 0 <= N / Q1) by (apply Z.div_pos; lia).
  assert (Hinf : forall m e,
             SFleb (S754_finite false m e) (S754_infinity false) = true)
    by reflexivity.
  destruct (Z.lt_trichotomy e1 eB) as [Hlow|[Heq|Hhigh]].
  - (* below the exponent of the bound: the value is under the bound *)
    exfalso. specialize (Hnorm ltac:(lia)).
    apply (vle_scaled _ _ _ _ ex) in Hv; [|lia|lia].
    rewrite Z.sub_diag, Z.pow_0_r, Z.mul_1_r in Hv.
    rewrite (pow_split (e1 - ex) (eB - ex)) in Hv by lia.
    replace (eB - ex - (e1 - ex)) with (eB - e1) in Hv by lia.
    fold P in Hv.
    assert (H2 : 2 ^ 1 <= 2 ^ (eB - e1)) by (apply Z.pow_le_mono_r; lia).
    change (2 ^ 1) with 2 in H2.
    set (C := 2 ^ (eB - e1)) in *.
    assert (HNlt : N < Q1 * 9007199254740992) by nia.
    assert (H3 : Q1 * (mB * C) <= N).
    { replace (Q1 * (mB * C)) with (Q * mB * (P * C)) by (unfold Q1; ring).
      exact Hv. }
    assert (H4 : 9007199254740992 <= mB * C) by nia.
    assert (H5 : Q1 * 9007199254740992 <= Q1 * (mB * C))
      by (apply Z.mul_le_mono_nonneg_l; lia).
    lia.
  - (* at the exponent of the bound *)
    apply (vle_scaled _ _ _ _ ex) in Hv; [|lia|lia].
    rewrite Z.sub_diag, Z.pow_0_r, Z.mul_1_r in Hv.
    rewrite <- Heq in Hv. fold P in Hv.
    assert (HNge : mB * Q1 <= N) by (unfold Q1; lia).
    assert (Hm1ge : mB <= m1).
    { assert (mB <= N / Q1) by (apply Z.div_le_lower_bound; lia). lia. }
    unfold finish. change (2 ^ 53) with 9007199254740992.
    change (2 ^ 52) with 4503599627370496.
    destruct (Z.eqb_spec m1 0); [lia|].
    destruct (Z.ltb_spec m1 9007199254740992).
    + destruct (Z.leb_spec e1 971); [|apply Hinf].
      apply SFleb_finite. rewrite !Z2Pos.id by lia. lia.
    + destruct (Z.leb_spec (e1 + 1) 971); [|apply Hinf].
      apply SFleb_finite. left. lia.
  - (* above the exponent of the bound *)
    specialize (Hge ltac:(lia)).
    unfold finish. change (2 ^ 53) with 9007199254740992.
    change (2 ^ 52) with 4503599627370496.
    destruct (Z.eqb_spec m1 0); [lia|].
    destruct (Z.ltb_spec m1 9007199254740992).
    + destruct (Z.leb_spec e1 971); [|apply Hinf].
      apply SFleb_finite. left. lia.
    + destruct (Z.leb_spec (e1 + 1) 971); [|apply Hinf].
      apply SFleb_finite. left. lia.
Qed.

(** Without a bound: the result is never NaN and carries the sign given. *)
Lemma round_sign (sx : bool) :
  exists m1 e1, binary_round_aux prec emax sx mx ex lx = finish sx m1 e1
                /\ 0 <= m1.
Proof.
  destruct (binary_round_aux_finish sx N Q mx ex lx HN HQ Hmx Hloc Hal)
    as (m1 & Hm1 & _ & _ & _ & _ & ->).
  eexists _, _. split; [reflexivity|].
  set (Q1 := Q * 2 ^ (fexp64 (Zdigits2 mx + ex) - ex)) in *.
  assert (0 < Q1).
  { unfold Q1. apply Z.mul_pos_pos; [exact HQ|]. apply pow2_pos. lia. }
  assert (0 <= N / Q1) by (apply Z.div_pos; lia). lia.
Qed.
End Bounds.

(** ** Alignment *)

Lemma pos_iter_xO (m d : positive) :
  Z.pos (Pos.iter xO m d) = Z.pos m * 2 ^ Z.pos d.
Proof.
  induction d as [|d IH] using Pos.peano_ind.
  - simpl. lia.
  - rewrite Pos.iter_succ, Pos2Z.inj_succ, Z.pow_succ_r by lia.
    rewrite Pos2Z.inj_xO, IH. lia.
Qed.

Lemma shl_align_spec (mx : positive) (ex ex' : Z) :
  snd (shl_align mx ex ex') = Z.min ex ex'
  /\ Z.pos (fst (shl_align mx ex ex'))
     = Z.pos mx * 2 ^ (ex - Z.min ex ex').
Proof.
  unfold shl_align. destruct (ex' - ex) as [|d|d] eqn:E; cbn [fst snd].
  - replace (Z.min ex ex') with ex by lia.
    rewrite Z.sub_diag, Z.pow_0_r. lia.
  - replace (Z.min ex ex') with ex by lia.
    rewrite Z.sub_diag, Z.pow_0_r. lia.
  - replace (Z.min ex ex') with ex' by lia.
    rewrite pos_iter_xO. split; [reflexivity|]. do 2 f_equal. lia.
Qed.

Lemma Zdigits2_shift (m k : Z) :
  0 < m -> 0 <= k -> Zdigits2 (m * 2 ^ k) = Zdigits2 m + k.
Proof.
  intros Hm Hk. destruct (Zdigits2_bounds m Hm) as [Hb HD].
  pose proof (pow2_pos k Hk) as HP.
  apply Zdigits2_unique; [|lia].
  replace (Zdigits2 m + k - 1) with (Zdigits2 m - 1 + k) by lia.
  rewrite !Z.pow_add_r by lia. nia.
Qed.

Lemma vle_shift_l (m e k m2 e2 : Z) :
  0 <= k -> (vle (m * 2 ^ k) (e - k) m2 e2 <-> vle m e m2 e2).
Proof.
  intros Hk.
  rewrite (vle_scaled _ _ _ _ (Z.min (e - k) e2)) by lia.
  rewrite (vle_scaled m e _ _ (Z.min (e - k) e2)) by lia.
  replace (e - Z.min (e - k) e2) with (k + (e - k - Z.min (e - k) e2)) by lia.
  rewrite Z.pow_add_r by lia. rewrite Z.mul_assoc. reflexivity.
Qed.

Lemma vle_shift_r (m e k m2 e2 : Z) :
  0 <= k -> (vle m2 e2 (m * 2 ^ k) (e - k) <-> vle m2 e2 m e).
Proof.
  intros Hk.
  rewrite (vle_scaled _ _ _ _ (Z.min (e - k) e2)) by lia.
  rewrite (vle_scaled _ _ m e (Z.min (e - k) e2)) by lia.
  replace (e - Z.min (e - k) e2) with (k + (e - k - Z.min (e - k) e2)) by lia.
  rewrite Z.pow_add_r by lia. rewrite Z.mul_assoc. reflexivity.
Qed.

(** ** [binary_round]: rounding of the integer [mx] at the exponent [ex] *)

Section BinaryRound.
Variables (mx : positive) (ex : Z).

Lemma binary_round_aligned (sx : bool) :
  exists (mz : positive) (ez : Z),
    binary_round prec emax sx mx ex
    = binary_round_aux prec emax sx (Z.pos mz) ez loc_Exact
    /\ ez <= ex /\ Z.pos mz = Z.pos mx * 2 ^ (ex - ez)
    /\ ez <= fexp64 (Zdigits2 (Z.pos mz) + ez).
Proof.
  unfold binary_round.
  destruct (shl_align_spec mx ex
              (fexp prec emax (Z.pos (digits2_pos mx) + ex))) as [He Hm].
  destruct (shl_align mx ex (fexp prec emax (Z.pos (digits2_pos mx) + ex)))
    as [mz ez].
  cbn [fst snd] in He, Hm. rewrite <- He in Hm.
  exists mz, ez. split; [reflexivity|split; [lia|split; [exact Hm|]]].
  rewrite Hm, Zdigits2_shift by lia.
  change (Zdigits2 (Z.pos mx)) with (Z.pos (digits2_pos mx)).
  replace (Z.pos (digits2_pos mx) + (ex - ez) + ez)
    with (Z.pos (digits2_pos mx) + ex) by lia.
  rewrite He, fexp_fexp64. lia.
Qed.

Lemma binary_round_le (mB eB : Z) :
  canonical mB eB -> vle (Z.pos mx) ex mB eB ->
  SFleb (binary_round prec emax false mx ex)
        (S754_finite false (Z.to_pos mB) eB) = true.
Proof.
  intros HB Hv.
  destruct (binary_round_aligned false) as (mz & ez & -> & Hez & Hmz & Hal).
  apply (round_le (Z.pos mz) 1); try lia; try assumption.
  - now rewrite Z.div_1_r.
  - apply located_exact.
  - rewrite Z.mul_1_l, Hmz.
    replace ez with (ex - (ex - ez)) at 2 by lia.
    apply vle_shift_l; [lia|exact Hv].
Qed.

Lemma binary_round_ge (mB eB : Z) :
  canonical mB eB -> vle mB eB (Z.pos mx) ex ->
  SFleb (S754_finite false (Z.to_pos mB) eB)
        (binary_round prec emax false mx ex) = true.
Proof.
  intros HB Hv.
  destruct (binary_round_aligned false) as (mz & ez & -> & Hez & Hmz & Hal).
  apply (round_ge (Z.pos mz) 1); try lia; try assumption.
  - now rewrite Z.div_1_r.
  - apply located_exact.
  - rewrite Z.mul_1_l, Hmz.
    replace ez with (ex - (ex - ez)) at 2 by lia.
    apply vle_shift_r; [lia|exact Hv].
Qed.

Lemma binary_round_finish (sx : bool) :
  exists m1 e1,
    binary_round prec emax sx mx ex = finish sx m1 e1
    /\ 0 <= m1 <= 2 ^ 53 /\ -1074 <= e1 /\ (-1074 < e1 -> 2 ^ 52 <= m1).
Proof.
  destruct (binary_round_aligned sx) as (mz & ez & -> & Hez & Hmz & Hal).
  destruct (binary_round_aux_finish sx (Z.pos mz) 1 (Z.pos mz) ez loc_Exact
              ltac:(lia) ltac:(lia) (eq_sym (Z.div_1_r _))
              (located_exact _) Hal)
    as (m1 & Hm1 & _ & Hlt & Hge & Hemin & ->).
  eexists _, _. split; [reflexivity|].
  set (Q1 := 1 * 2 ^ (fexp64 (Zdigits2 (Z.pos mz) + ez) - ez)) in *.
  assert (0 < Q1).
  { unfold Q1. rewrite Z.mul_1_l. apply pow2_pos. lia. }
  assert (0 <= Z.pos mz / Q1) by (apply Z.div_pos; lia).
  repeat split; lia.
Qed.
End BinaryRound.

(** ** Results of rounding *)

Lemma finish_valid (sx : bool) (m1 e1 : Z) :
  0 <= m1 <= 2 ^ 53 -> -1074 <= e1 -> (-1074 < e1 -> 2 ^ 52 <= m1) ->
  valid_binary (finish sx m1 e1) = true.
Proof.
  intros Hm He Hn. unfold finish.
  change (2 ^ 53) with 9007199254740992 in *.
  change (2 ^ 52) with 4503599627370496 in *.
  destruct (Z.eqb_spec m1 0); [reflexivity|].
  destruct (Z.ltb_spec m1 9007199254740992).
  - destruct (Z.leb_spec e1 971); [|reflexivity].
    unfold valid_binary, bounded, canonical_mantissa.
    rewrite fexp_fexp64. change (emax - prec) with 971.
    apply andb_true_iff. split; [|now apply Z.leb_le].
    apply Z.eqb_eq.
    destruct (Zdigits2_bounds m1 ltac:(lia)) as [Hb HD].
    destruct m1 as [|p|p]; try lia. simpl Z.to_pos. simpl Zdigits2 in *.
    set (D := Z.pos (digits2_pos p)) in *.
    assert (D <= 53).
    { destruct (Z.le_gt_cases D 53) as [L|G]; [exact L|].
      assert (2 ^ 53 <= 2 ^ (D - 1)) by (apply Z.pow_le_mono_r; lia).
      change (2 ^ 53) with 9007199254740992 in *. lia. }
    unfold fexp64.
    destruct (Z.eq_dec e1 (-1074)) as [->|Hne]; [lia|].
    specialize (Hn ltac:(lia)).
    assert (53 <= D).
    { destruct (Z.le_gt_cases 53 D) as [L|G]; [exact L|].
      assert (2 ^ D <= 2 ^ 52) by (apply Z.pow_le_mono_r; lia).
      change (2 ^ 52) with 4503599627370496 in *. lia. }
    lia.
  - destruct (Z.leb_spec (e1 + 1) 971); [|reflexivity].
    unfold valid_binary, bounded, canonical_mantissa.
    rewrite fexp_fexp64. change (emax - prec) with 971.
    apply andb_true_iff. split; [|now apply Z.leb_le].
    apply Z.eqb_eq.
    change (Z.pos (digits2_pos (Z.to_pos 4503599627370496))) with 53.
    unfold fexp64. lia.
Qed.

Lemma finish_class (sx : bool) (m1 e1 : Z) :
  0 <= m1 ->
  if sx then is_nonpos (finish sx m1 e1) = true
  else is_nonneg (finish sx m1 e1) = true.
Proof.
  intros Hm. unfold finish.
  destruct sx, (m1 =? 0), (m1 <? 2 ^ 53), (e1 <=? 971), (e1 + 1 <=? 971);
    reflexivity.
Qed.

Lemma binary_round_valid (sx : bool) (mx : positive) (ex : Z) :
  valid_binary (binary_round prec emax sx mx ex) = true.
Proof.
  destruct (binary_round_finish mx ex sx) as (m1 & e1 & -> & Hm & He & Hn).
  now apply finish_valid.
Qed.

Lemma binary_normalize_valid (m e : Z) (szero : bool) :
  valid_binary (binary_normalize prec emax m e szero) = true.
Proof.
  destruct m; simpl; [reflexivity| |]; apply binary_round_valid.
Qed.

(** ** Order and values *)

Lemma SFleb_vle (a b : positive) (ea eb : Z) :
  canonical (Z.pos a) ea -> canonical (Z.pos b) eb ->
  SFleb (S754_finite false a ea) (S754_finite false b eb) = true ->
  vle (Z.pos a) ea (Z.pos b) eb.
Proof.
  intros ((_ & Ha) & (Hea & _) & _) ((_ & _) & _ & Hb) H.
  apply SFleb_finite in H.
  change (2 ^ 53) with 9007199254740992 in *.
  change (2 ^ 52) with 4503599627370496 in *.
  apply (vle_scaled _ _ _ _ ea); [lia|lia|].
  rewrite Z.sub_diag, Z.pow_0_r, Z.mul_1_r.
  destruct H as [Hlt|[-> Hle]].
  - specialize (Hb ltac:(lia)).
    assert (2 ^ 1 <= 2 ^ (eb - ea)) by (apply Z.pow_le_mono_r; lia).
    change (2 ^ 1) with 2 in *. nia.
  - rewrite Z.sub_diag, Z.pow_0_r. lia.
Qed.

Lemma SFleb_is_pos (m : positive) (e : Z) (r : spec_float) :
  SFleb (S754_finite false m e) r = true -> is_pos r = true.
Proof. destruct r as [s|[|]| |[|] m' e']; try discriminate; reflexivity. Qed.

(** ** Addition *)

Lemma SFadd_finite_pos (mx my : positive) (ex ey : Z) :
  exists p : positive,
    SFadd prec emax (S754_finite false mx ex) (S754_finite false my ey)
    = binary_round prec emax false p (Z.min ex ey)
    /\ Z.pos p = Z.pos mx * 2 ^ (ex - Z.min ex ey)
                 + Z.pos my * 2 ^ (ey - Z.min ex ey).
Proof.
  destruct (shl_align_spec mx ex (Z.min ex ey)) as [_ Ha].
  destruct (shl_align_spec my ey (Z.min ex ey)) as [_ Hb].
  replace (Z.min ex (Z.min ex ey)) with (Z.min ex ey) in Ha by lia.
  replace (Z.min ey (Z.min ex ey)) with (Z.min ex ey) in Hb by lia.
  exists (fst (shl_align mx ex (Z.min ex ey))
          + fst (shl_align my ey (Z.min ex ey)))%positive.
  split; [reflexivity|]. rewrite Pos2Z.inj_add, Ha, Hb. reflexivity.
Qed.

Lemma SFadd_nonneg (x y : spec_float) :
  is_nonneg x = true -> is_nonneg y = true ->
  is_nonneg (SFadd prec emax x y) = true.
Proof.
  destruct x as [sx|[|]| |[|] mx ex], y as [sy|[|]| |[|] my ey];
    try discriminate; try reflexivity; intros _ _.
  - now destruct sx, sy.
  - destruct (SFadd_finite_pos mx my ex ey) as (p & -> & _).
    destruct (binary_round_finish p (Z.min ex ey) false)
      as (m1 & e1 & -> & Hm & _).
    apply (finish_class false). lia.
Qed.

Lemma SFadd_nonpos (x y : spec_float) :
  is_nonpos x = true -> is_nonpos y = true ->
  is_nonpos (SFadd prec emax x y) = true.
Proof.
  destruct x as [sx|[|]| |[|] mx ex], y as [sy|[|]| |[|] my ey];
    try discriminate; try reflexivity; intros _ _.
  - now destruct sx, sy.
  - change (SFadd prec emax (S754_finite true mx ex) (S754_finite true my ey))
      with (binary_round prec emax true
              (fst (shl_align mx ex (Z.min ex ey))
               + fst (shl_align my ey (Z.min ex ey)))%positive (Z.min ex ey)).
    match goal with
    | |- context [binary_round _ _ true ?p ?e] =>
        destruct (binary_round_finish p e true) as (m1 & e1 & -> & Hm & _)
    end.
    apply (finish_class true). lia.
Qed.

Lemma SFleb_refl_finite (m : positive) (e : Z) :
  SFleb (S754_finite false m e) (S754_finite false m e) = true.
Proof. apply SFleb_finite. right. split; lia. Qed.

(** [x <= x + y] when [y] is not negative. *)
Lemma SFadd_ge_left (mx : positive) (ex : Z) (y : spec_float) :
  canonical (Z.pos mx) ex -> is_nonneg y = true ->
  SFleb (S754_finite false mx ex) (SFadd prec emax (S754_finite false mx ex) y)
  = true.
Proof.
  intros Hx Hy. destruct y as [sy|[|]| |[|] my ey]; try discriminate.
  - apply SFleb_refl_finite.
  - reflexivity.
  - destruct (SFadd_finite_pos mx my ex ey) as (p & -> & Hp).
    change (S754_finite false mx ex)
      with (S754_finite false (Z.to_pos (Z.pos mx)) ex).
    apply binary_round_ge; [exact Hx|].
    apply (vle_scaled _ _ _ _ (Z.min ex ey)); [lia|lia|].
    rewrite Z.sub_diag, Z.pow_0_r, Z.mul_1_r, Hp.
    assert (0 < 2 ^ (ey - Z.min ex ey)) by (apply pow2_pos; lia). nia.
Qed.

(** ** Subtraction *)

(** [0 <= x - y <= x] when [0 <= y <= x]. *)
Lemma SFsub_le_left (mx : positive) (ex : Z) (y : spec_float) :
  canonical (Z.pos mx) ex ->
  valid_binary y = true -> is_nonneg y = true ->
  SFleb y (S754_finite false mx ex) = true ->
  is_nonneg (SFsub prec emax (S754_finite false mx ex) y) = true
  /\ SFleb (SFsub prec emax (S754_finite false mx ex) y)
           (S754_finite false mx ex) = true.
Proof.
  intros Hx Hvalid Hy Hle. destruct y as [sy|[|]| |[|] my ey]; try discriminate.
  - split; [reflexivity|apply SFleb_refl_finite].
  - apply valid_canonical in Hvalid.
    apply SFleb_vle in Hle; [|exact Hvalid|exact Hx].
    apply (vle_scaled _ _ _ _ (Z.min ex ey)) in Hle; [|lia|lia].
    destruct (shl_align_spec mx ex (Z.min ex ey)) as [_ Ha].
    destruct (shl_align_spec my ey (Z.min ex ey)) as [_ Hb].
    replace (Z.min ex (Z.min ex ey)) with (Z.min ex ey) in Ha by lia.
    replace (Z.min ey (Z.min ex ey)) with (Z.min ex ey) in Hb by lia.
    unfold SFsub. cbn [cond_Zopp].
    set (a := fst (shl_align mx ex (Z.min ex ey))) in *.
    set (b := fst (shl_align my ey (Z.min ex ey))) in *.
    destruct (Z.pos a - Z.pos b) as [|p|p] eqn:E; try lia.
    + split; reflexivity.
    + cbn [binary_normalize]. split.
      * destruct (binary_round_finish p (Z.min ex ey) false)
          as (m1 & e1 & -> & Hm & _).
        apply (finish_class false). lia.
      * change (S754_finite false mx ex)
          with (S754_finite false (Z.to_pos (Z.pos mx)) ex).
        apply binary_round_le; [exact Hx|].
        apply (vle_scaled _ _ _ _ (Z.min ex ey)); [lia|lia|].
        rewrite Z.sub_diag, Z.pow_0_r, Z.mul_1_r. lia.
Qed.

(** ** Division *)

Lemma div_eucl_div_mod (a b : Z) : Z.div_eucl a b = (a / b, a mod b).
Proof. unfold Z.div, Z.modulo. now destruct (Z.div_eucl a b). Qed.

Section Division.
Variables (mx my : positive) (ex ey : Z).

Lemma div_shift_nonneg : 0 <= ex - ey - div_exponent mx my ex ey.
Proof. unfold div_exponent. lia. Qed.

Lemma div_numerator_nonneg : 0 <= div_numerator mx my ex ey.
Proof.
  unfold div_numerator. apply Z.mul_nonneg_nonneg; [lia|].
  apply Z.pow_nonneg. lia.
Qed.

Lemma SFdiv_core_spec :
  SFdiv_core_binary prec emax (Z.pos mx) ex (Z.pos my) ey
  = (div_numerator mx my ex ey / Z.pos my, div_exponent mx my ex ey,
     new_location (Z.pos my) (div_numerator mx my ex ey mod Z.pos my)).
Proof.
  unfold SFdiv_core_binary. rewrite fexp_fexp64.
  change (Zdigits2 (Z.pos mx)) with (Z.pos (digits2_pos mx)).
  change (Zdigits2 (Z.pos my)) with (Z.pos (digits2_pos my)).
  fold (div_exponent mx my ex ey).
  pose proof div_shift_nonneg as Hs. unfold div_numerator.
  revert Hs. generalize (ex - ey - div_exponent mx my ex ey). intros z Hz.
  replace (match z with
           | 0 => Z.pos mx
           | Z.pos _ => Z.shiftl (Z.pos mx) z
           | Z.neg _ => 0
           end) with (Z.pos mx * 2 ^ z).
  - now rewrite div_eucl_div_mod.
  - destruct z as [|p|p]; try lia.
    now rewrite Z.shiftl_mul_pow2 by lia.
Qed.

Lemma div_aligned :
  div_exponent mx my ex ey
  <= fexp64 (Zdigits2 (div_numerator mx my ex ey / Z.pos my)
             + div_exponent mx my ex ey).
Proof.
  pose proof div_shift_nonneg as Hs.
  pose proof (digits2_pos_bounds mx) as Hbx.
  pose proof (digits2_pos_bounds my) as Hby.
  unfold div_numerator.
  assert (He' : div_exponent mx my ex ey
                <= fexp64 (Z.pos (digits2_pos mx) + ex
                           - (Z.pos (digits2_pos my) + ey)))
    by (unfold div_exponent; lia).
  set (e' := div_exponent mx my ex ey) in *.
  set (s := ex - ey - e') in *.
  set (d1 := Z.pos (digits2_pos mx)) in *.
  set (d2 := Z.pos (digits2_pos my)) in *.
  set (q := Z.pos mx * 2 ^ s / Z.pos my).
  destruct (Z.le_gt_cases 0 (d1 - 1 + s - d2)) as [Hk|Hk].
  - (* the quotient has at least [d1 + s - d2] digits *)
    assert (Hq : 2 ^ (d1 - 1 + s - d2) <= q).
    { apply Z.div_le_lower_bound; [lia|].
      assert (E : 2 ^ (d1 - 1) * 2 ^ s = 2 ^ (d1 - 1 + s - d2) * 2 ^ d2).
      { rewrite <- !Z.pow_add_r by lia. f_equal. lia. }
      pose proof (pow2_pos s Hs). pose proof (pow2_pos _ Hk). nia. }
    assert (Hqpos : 0 < q) by (pose proof (pow2_pos _ Hk); lia).
    destruct (Zdigits2_bounds _ Hqpos) as [Hb HD].
    assert (d1 - 1 + s - d2 < Zdigits2 q).
    { apply (Z.pow_lt_mono_r_iff 2); lia. }
    unfold fexp64 in *. unfold s in *. lia.
  - assert (0 <= Zdigits2 q) by (destruct q; simpl; lia).
    unfold fexp64 in *. unfold s in *. lia.
Qed.

Lemma SFdiv_finite (sx sy : bool) :
  SFdiv prec emax (S754_finite sx mx ex) (S754_finite sy my ey)
  = binary_round_aux prec emax (xorb sx sy)
      (div_numerator mx my ex ey / Z.pos my) (div_exponent mx my ex ey)
      (new_location (Z.pos my) (div_numerator mx my ex ey mod Z.pos my)).
Proof. unfold SFdiv. now rewrite SFdiv_core_spec. Qed.

Lemma SFdiv_finite_class (sx sy : bool) :
  exists m1 e1,
    SFdiv prec emax (S754_finite sx mx ex) (S754_finite sy my ey)
    = finish (xorb sx sy) m1 e1 /\ 0 <= m1.
Proof.
  rewrite SFdiv_finite.
  exact (round_sign (div_numerator mx my ex ey) (Z.pos my) _ _ _
           div_numerator_nonneg (Pos2Z.is_pos my) eq_refl
           (located_new_location _ _ div_numerator_nonneg (Pos2Z.is_pos my))
           div_aligned _).
Qed.

(** [x / y <= x] when [1 <= y]. *)
Lemma SFdiv_le_num :
  canonical (Z.pos mx) ex -> canonical (Z.pos my) ey ->
  SFleb SF_one (S754_finite false my ey) = true ->
  SFleb (SFdiv prec emax (S754_finite false mx ex) (S754_finite false my ey))
        (S754_finite false mx ex) = true.
Proof.
  intros Hx Hy Hone. rewrite SFdiv_finite. cbn [xorb].
  change (S754_finite false mx ex)
    with (S754_finite false (Z.to_pos (Z.pos mx)) ex).
  pose proof div_shift_nonneg as Hs.
  apply (round_le (div_numerator mx my ex ey) (Z.pos my) _ _ _ _ _
           div_numerator_nonneg (Pos2Z.is_pos my) eq_refl
           (located_new_location _ _ div_numerator_nonneg (Pos2Z.is_pos my))
           div_aligned Hx).
  unfold div_numerator.
  set (e' := div_exponent mx my ex ey) in *.
  set (s := ex - ey - e') in *.
  apply (vle_scaled _ _ _ _ (Z.min e' ex)); [lia|lia|].
  set (c := Z.min e' ex). set (k := ex - c).
  assert (Hk : 0 <= k) by (unfold k, c; lia).
  assert (Hke : 0 <= k - ey) by (unfold k, c, s in *; lia).
  rewrite <- Z.mul_assoc, <- Z.pow_add_r by (unfold c; lia).
  replace (s + (e' - c)) with (k - ey) by (unfold k, s; lia).
  apply SFleb_finite in Hone.
  destruct Hy as ((_ & _) & (Hey & _) & Hnorm).
  specialize (Hnorm ltac:(lia)).
  change (2 ^ 52) with 4503599627370496 in *.
  assert (Hpow : 2 ^ (k - ey) <= Z.pos my * 2 ^ k).
  { pose proof (pow2_pos k Hk) as HP.
    destruct (Z.le_gt_cases 0 ey) as [Hpos|Hneg].
    - assert (2 ^ (k - ey) <= 2 ^ k) by (apply Z.pow_le_mono_r; lia). nia.
    - replace (k - ey) with (k + (- ey)) by lia.
      rewrite Z.pow_add_r by lia.
      assert (2 ^ (- ey) <= 2 ^ 52) by (apply Z.pow_le_mono_r; lia).
      change (2 ^ 52) with 4503599627370496 in *. nia. }
  nia.
Qed.
End Division.

Lemma SFdiv_class (x y : spec_float) :
  is_nonneg x = true -> is_pos y = true ->
  SF_nan (SFdiv prec emax x y) = SF_inf x && SF_inf y
  /\ (SF_nan (SFdiv prec emax x y) = false ->
      is_nonneg (SFdiv prec emax x y) = true)
  /\ (is_pos x = false -> SFdiv prec emax x y = S754_zero false
                          \/ SFdiv prec emax x y = S754_zero true).
Proof.
  intros Hx Hy.
  destruct x as [sx|sx| |sx mx ex]; try discriminate;
    destruct y as [sy|sy| |sy my ey]; try discriminate;
    try (destruct sx; try discriminate); try (destruct sy; try discriminate);
    try (cbn; repeat split; try reflexivity; try discriminate;
         intros; auto; fail).
  destruct (SFdiv_finite_class mx my ex ey false false)
    as (m1 & e1 & E & Hm1).
  rewrite E. cbn [xorb SF_inf andb].
  pose proof (finish_class false m1 e1 Hm1) as Hc. cbv beta iota in Hc.
  destruct (finish false m1 e1) as [s'|s'| |s' m'' e'']; try discriminate;
    repeat split; try reflexivity; try assumption; try discriminate;
    intros _; exact Hc.
Qed.

(** ** Conversion of integers *)

Lemma binary_normalize_pos (p : Z) :
  1 <= p ->
  is_pos (binary_normalize prec emax p 0 false) = true
  /\ SFleb SF_one (binary_normalize prec emax p 0 false) = true.
Proof.
  intros Hp. destruct p as [|p|p]; try lia. cbn [binary_normalize].
  assert (H : SFleb SF_one (binary_round prec emax false p 0) = true).
  { change SF_one
      with (S754_finite false (Z.to_pos 4503599627370496) (-52)).
    apply binary_round_ge.
    - unfold canonical. change (2 ^ 53) with 9007199254740992.
      change (2 ^ 52) with 4503599627370496. lia.
    - apply (vle_scaled _ _ _ _ (-52)); [lia|lia|].
      change (2 ^ (-52 - -52)) with 1. change (2 ^ (0 - -52)) with 4503599627370496.
      lia. }
  split; [|exact H]. exact (SFleb_is_pos _ _ _ H).
Qed.

(** ** The relative strength index on doubles *)

Section Binary64RsiRange.
#[local] Existing Instance binary64.
Local Open Scope num_scope.

Lemma Prim2SF_of_Z (z : Z) :
  Prim2SF (Binary64.of_Z z) = binary_normalize prec emax z 0 false.
Proof.
  unfold Binary64.of_Z. apply Prim2SF_SF2Prim, binary_normalize_valid.
Qed.

Lemma of_Z_pos (p : Z) :
  (1 <= p)%Z -> is_pos (Prim2SF (Binary64.of_Z p)) = true.
Proof.
  intros Hp. rewrite Prim2SF_of_Z. now apply binary_normalize_pos.
Qed.

Lemma is_nan_SF (x : float) : PrimFloat.is_nan x = SF_nan (Prim2SF x).
Proof.
  unfold PrimFloat.is_nan. rewrite FloatAxioms.eqb_spec. unfold SFeqb.
  destruct (Prim2SF x) as [s|s| |s m e]; simpl; try reflexivity.
  - now destruct s.
  - rewrite Z.compare_refl, Pos.compare_cont_refl. now destruct s.
Qed.

Lemma is_zero_SF (x : float) :
  PrimFloat.is_zero x
  = match Prim2SF x with S754_zero _ => true | _ => false end.
Proof.
  unfold PrimFloat.is_zero. rewrite FloatAxioms.eqb_spec.
  change (Prim2SF zero) with (S754_zero false). unfold SFeqb.
  destruct (Prim2SF x) as [s|s| |s m e]; simpl; try reflexivity;
    now destruct s.
Qed.

Lemma gt_zero_pos (c : num) : (c >? #0) = true -> is_pos (Prim2SF c) = true.
Proof.
  change (c >? #0) with (PrimFloat.ltb zero c).
  rewrite FloatAxioms.ltb_spec. change (Prim2SF zero) with (S754_zero false).
  destruct (Prim2SF c) as [s|[|]| |[|] m e]; try discriminate; reflexivity.
Qed.

Lemma lt_zero_nonpos (c : num) :
  (c <? #0) = true -> is_nonpos (Prim2SF c) = true.
Proof.
  change (c <? #0) with (PrimFloat.ltb c zero).
  rewrite FloatAxioms.ltb_spec. change (Prim2SF zero) with (S754_zero false).
  destruct (Prim2SF c) as [s|[|]| |[|] m e]; try discriminate; reflexivity.
Qed.

Lemma is_pos_nonneg (x : spec_float) : is_pos x = true -> is_nonneg x = true.
Proof. destruct x as [s|[|]| |[|] m e]; try discriminate; reflexivity. Qed.

Lemma Forall_filter_true {A : Type} (f : A -> bool) (l : list A) :
  Forall (fun x => f x = true) (List.filter f l).
Proof.
  induction l as [|x l IH]; simpl; [constructor|].
  destruct (f x) eqn:E; [constructor; assumption|assumption].
Qed.

Lemma sum_nonneg (l : list float) (acc : float) :
  Forall (fun c => is_nonneg (Prim2SF c) = true) l ->
  is_nonneg (Prim2SF acc) = true ->
  is_nonneg (Prim2SF (fold_left PrimFloat.add l acc)) = true.
Proof.
  intros Hl. revert acc. induction Hl as [|c l Hc _ IH]; intros acc Hacc.
  - exact Hacc.
  - simpl. apply IH. rewrite FloatAxioms.add_spec. now apply SFadd_nonneg.
Qed.

Lemma sum_nonpos (l : list float) (acc : float) :
  Forall (fun c => is_nonpos (Prim2SF c) = true) l ->
  is_nonpos (Prim2SF acc) = true ->
  is_nonpos (Prim2SF (fold_left PrimFloat.add l acc)) = true.
Proof.
  intros Hl. revert acc. induction Hl as [|c l Hc _ IH]; intros acc Hacc.
  - exact Hacc.
  - simpl. apply IH. rewrite FloatAxioms.add_spec. now apply SFadd_nonpos.
Qed.

(** The sum of the gains of a window is not negative and not NaN, and so is
    the absolute value of the sum of its losses. *)
Lemma gains_sum_nonneg (w : list num) :
  is_nonneg (Prim2SF (Indicators.sum (List.filter (fun c => c >? #0) w)))
  = true.
Proof.
  apply sum_nonneg; [|reflexivity].
  eapply List.Forall_impl; [|apply Forall_filter_true].
  intros c Hc. apply is_pos_nonneg. now apply gt_zero_pos.
Qed.

Lemma losses_sum_nonneg (w : list num) :
  is_nonneg
    (Prim2SF (Math_abs (Indicators.sum (List.filter (fun c => c <? #0) w))))
  = true.
Proof.
  change (Math_abs ?x) with (PrimFloat.abs x).
  rewrite FloatAxioms.abs_spec.
  assert (H : is_nonpos
                (Prim2SF (Indicators.sum (List.filter (fun c => c <? #0) w)))
              = true).
  { apply sum_nonpos; [|reflexivity].
    eapply List.Forall_impl; [|apply Forall_filter_true].
    intros c Hc. now apply lt_zero_nonpos. }
  destruct (Prim2SF _) as [s|[|]| |[|] m e]; try discriminate; reflexivity.
Qed.

(** An average of the window: NaN, or not negative. *)
Lemma average_class (total : num) (period : Z) :
  (1 <= period)%Z -> is_nonneg (Prim2SF total) = true ->
  SF_nan (Prim2SF (total / #period)) = true
  \/ is_nonneg (Prim2SF (total / #period)) = true.
Proof.
  intros Hp Ht. change (total / #period) with (PrimFloat.div total #period).
  rewrite FloatAxioms.div_spec.
  destruct (SFdiv_class _ _ Ht (of_Z_pos period Hp)) as (_ & Hc & _).
  unfold SF64div.
  destruct (SF_nan (SFdiv prec emax (Prim2SF total)
                      (Prim2SF (Binary64.of_Z period)))) eqn:E;
    [now left|right; now apply Hc].
Qed.

(** The divisor [losses || 1] is above zero, and infinite only when
    [losses] is. *)
Lemma divisor_pos (losses : num) :
  SF_nan (Prim2SF losses) = true \/ is_nonneg (Prim2SF losses) = true ->
  is_pos (Prim2SF (Indicators.num_or losses #1)) = true
  /\ SF_inf (Prim2SF (Indicators.num_or losses #1)) = SF_inf (Prim2SF losses).
Proof.
  intros Hl. unfold Indicators.num_or.
  change (truthy losses) with (Binary64.truthy losses).
  unfold Binary64.truthy. rewrite is_nan_SF, is_zero_SF.
  destruct (Prim2SF losses) as [s|[|]| |[|] m e] eqn:E; simpl;
    try (destruct Hl; discriminate);
    try (rewrite E; split; reflexivity);
    split; reflexivity.
Qed.

(** From the relative strength [rs] to the index. *)
Lemma index_of_strength (rs : num) :
  let v := #100 - #100 / (#1 + rs) in
  (SF_nan (Prim2SF rs) = true -> SF_nan (Prim2SF v) = true)
  /\ (is_nonneg (Prim2SF rs) = true ->
      is_nonneg (Prim2SF v) = true /\ SFleb (Prim2SF v) SF_100 = true).
Proof.
  intros v. subst v.
  set (hundred := Binary64.of_Z 100). set (one := Binary64.of_Z 1).
  change (#100 - #100 / (#1 + rs))
    with (PrimFloat.sub hundred (PrimFloat.div hundred (PrimFloat.add one rs))).
  set (t := PrimFloat.add one rs). set (y := PrimFloat.div hundred t).
  pose proof (FloatAxioms.add_spec one rs) as Ht. fold t in Ht.
  pose proof (FloatAxioms.div_spec hundred t) as Hy. fold y in Hy.
  pose proof (FloatAxioms.sub_spec hundred y) as Hv.
  change (Prim2SF one) with SF_one in Ht.
  change (Prim2SF hundred) with SF_100 in Hy, Hv.
  assert (Hcan1 : canonical 4503599627370496 (-52)).
  { unfold canonical. change (2 ^ 53)%Z with 9007199254740992%Z.
    change (2 ^ 52)%Z with 4503599627370496%Z. lia. }
  assert (Hcan100 : canonical 7036874417766400 (-46)).
  { unfold canonical. change (2 ^ 53)%Z with 9007199254740992%Z.
    change (2 ^ 52)%Z with 4503599627370496%Z. lia. }
  split.
  - intros Hrs. rewrite Hv, Hy, Ht.
    destruct (Prim2SF rs); try discriminate. reflexivity.
  - intros Hrs.
    (* 1 <= 1 + rs *)
    assert (Ht1 : SFleb SF_one (Prim2SF t) = true).
    { rewrite Ht. unfold SF64add. apply SFadd_ge_left; assumption. }
    (* 0 <= 100 / (1 + rs) <= 100 *)
    assert (Hy1 : is_nonneg (Prim2SF y) = true
                  /\ SFleb (Prim2SF y) SF_100 = true).
    { pose proof (FloatAxioms.Prim2SF_valid t) as Hvalid.
      rewrite Hy. unfold SF64div.
      destruct (Prim2SF t) as [s|[|]| |[|] m e]; try discriminate.
      - split; reflexivity.
      - apply valid_canonical in Hvalid. split.
        + destruct (SFdiv_finite_class 7036874417766400 m (-46) e false false)
            as (m1 & e1 & E & Hm1).
          unfold SF_100. rewrite E. now apply (finish_class false).
        + now apply SFdiv_le_num. }
    destruct Hy1 as [Hy0 Hy100].
    rewrite Hv. unfold SF64sub.
    apply SFsub_le_left; try assumption.
    apply FloatAxioms.Prim2SF_valid.
Qed.
Lemma nonneg_leb_zero (x : num) :
  is_nonneg (Prim2SF x) = true -> (#0 <=? x) = true.
Proof.
  intros H. change (#0 <=? x) with (PrimFloat.leb (Binary64.of_Z 0) x).
  rewrite FloatAxioms.leb_spec.
  change (Prim2SF (Binary64.of_Z 0)) with (S754_zero false).
  destruct (Prim2SF x) as [s|[|]| |[|] m e]; try discriminate; reflexivity.
Qed.

Lemma infinite_nonneg (x : num) :
  is_nonneg (Prim2SF x) = true ->
  (SF_inf (Prim2SF x) = true <-> x = Infinity).
Proof.
  intros H. split.
  - intros Hi. apply Prim2SF_inj.
    change (Prim2SF (@Infinity binary64)) with (S754_infinity false).
    destruct (Prim2SF x) as [s|[|]| |[|] m e]; try discriminate; reflexivity.
  - intros ->. reflexivity.
Qed.

(** The value computed for a window: it is NaN exactly when the average
    gain is NaN or the two averages are both infinite, and it lies between
    0 and 100 otherwise. *)
Lemma rsi_value_range (w : list num) (period : Z) :
  (1 <= period)%Z ->
  let gains :=
    Indicators.sum (List.filter (fun c => c >? #0) w) / #period in
  let losses :=
    Math_abs (Indicators.sum (List.filter (fun c => c <? #0) w)) / #period in
  let v := Indicators.rsi_value w period in
  (PrimFloat.is_nan v = true
   <-> PrimFloat.is_nan gains = true
       \/ (gains = Infinity /\ losses = Infinity))
  /\ (PrimFloat.is_nan v = false ->
      (#0 <=? v) = true /\ (v <=? #100) = true).
Proof.
  intros Hp gains losses v. subst v. unfold Indicators.rsi_value.
  fold gains. fold losses.
  assert (Hg : SF_nan (Prim2SF gains) = true
               \/ is_nonneg (Prim2SF gains) = true)
    by exact (average_class _ period Hp (gains_sum_nonneg w)).
  assert (Hl : SF_nan (Prim2SF losses) = true
               \/ is_nonneg (Prim2SF losses) = true)
    by exact (average_class _ period Hp (losses_sum_nonneg w)).
  destruct (divisor_pos losses Hl) as [Hd Hdinf].
  set (d := Indicators.num_or losses #1) in *.
  set (rs := gains / d).
  pose proof (FloatAxioms.div_spec gains d) as Hrs.
  change (PrimFloat.div gains d) with rs in Hrs.
  destruct (index_of_strength rs) as [Hnan Hrange].
  set (v := #100 - #100 / (#1 + rs)) in *.
  rewrite !is_nan_SF.
  destruct Hg as [Hg|Hg].
  - (* the average gain is NaN *)
    assert (Hrsnan : SF_nan (Prim2SF rs) = true).
    { rewrite Hrs. destruct (Prim2SF gains); try discriminate. reflexivity. }
    specialize (Hnan Hrsnan). split.
    + split; [intros _; now left|intros _; exact Hnan].
    + intros Hv. rewrite Hnan in Hv. discriminate.
  - destruct (SFdiv_class _ _ Hg Hd) as (Hn & Hc & _).
    fold SF64div in Hn, Hc. rewrite <- Hrs in Hn, Hc. rewrite Hdinf in Hn.
    assert (Hgnan : SF_nan (Prim2SF gains) = false)
      by (destruct (Prim2SF gains) as [s|[|]| |[|] m e];
          try discriminate; reflexivity).
    destruct (SF_nan (Prim2SF rs)) eqn:Ers.
    + (* both averages are infinite *)
      specialize (Hnan eq_refl). symmetry in Hn.
      apply andb_true_iff in Hn as [Hgi Hli].
      assert (Hlnn : is_nonneg (Prim2SF losses) = true).
      { destruct Hl as [Hl|Hl]; [|exact Hl].
        destruct (Prim2SF losses); discriminate. }
      split.
      * split; [|intros _; exact Hnan]. intros _. right.
        split; now apply infinite_nonneg.
      * intros Hv. rewrite Hnan in Hv. discriminate.
    + destruct (Hrange (Hc eq_refl)) as [Hv0 Hv100].
      assert (Hvn : SF_nan (Prim2SF v) = false).
      { destruct (Prim2SF v) as [s|[|]| |[|] m e];
          try discriminate; reflexivity. }
      split.
      * rewrite Hvn. split; [discriminate|].
        intros [Hgn|[Hgi Hli]]; [congruence|].
        rewrite Hgi, Hli in Hn. discriminate Hn.
      * intros _. split; [now apply nonneg_leb_zero|].
        change (v <=? #100) with (PrimFloat.leb v (Binary64.of_Z 100)).
        rewrite FloatAxioms.leb_spec. exact Hv100.
Qed.

(** C9, amended.  For a period of at least 1 and every series of prices,
    every value of the relative strength index is NaN or lies between 0 and
    100; it is NaN exactly when the average gain of its window is NaN or
    the average gain and the average loss are both infinite. *)
Theorem rsi_bounded (prices : list num) (period i : Z) :
  let changes := Indicators.price_changes prices in
  let window := slice changes (i - period) i in
  let gains :=
    Indicators.sum (List.filter (fun c => c >? #0) window) / #period in
  let losses :=
    Math_abs (Indicators.sum (List.filter (fun c => c <? #0) window))
    / #period in
  (1 <= period <= i)%Z -> (i <= Z.of_nat (length changes))%Z ->
  exists v,
    get (Indicators.calculateRsi prices period) (i - period) = Some v
    /\ (PrimFloat.is_nan v = true
        <-> PrimFloat.is_nan gains = true
            \/ (gains = Infinity /\ losses = Infinity))
    /\ (PrimFloat.is_nan v = false ->
        (#0 <=? v) = true /\ (v <=? #100) = true).
Proof.
  intros changes window gains losses Hp Hi.
  eexists. split.
  - apply get_calculateRsi. fold changes. lia.
  - fold changes. fold window. apply rsi_value_range. lia.
Qed.

Lemma rsi_bounded_witness :
  let prices := map of_Z [44; 47; 45; 50; 48] in
  exists v,
    get (Indicators.calculateRsi prices 3) 1 = Some v
    /\ PrimFloat.is_nan v = false
    /\ (#0 <=? v) = true /\ (v <=? #100) = true.
Proof.
  intros prices.
  destruct (rsi_bounded prices 3 4) as (v & Hv & Hnan & Hrange).
  - lia.
  - vm_compute. discriminate.
  - exists v. split; [exact Hv|].
    assert (E : PrimFloat.is_nan v = false).
    { vm_compute in Hv. injection Hv as <-. reflexivity. }
    split; [exact E|]. exact (Hrange E).
Defined.
End Binary64RsiRange.

(** * Further properties of the indicators and the strategies *)

(** * Further properties of the indicator functions *)

(** Two lists with the same elements at every index are equal. *)
Lemma list_eq_by_get {A : Type} (l1 l2 : list A) :
  length l1 = length l2 ->
  (forall i, 0 <= i < Z.of_nat (length l1) -> get l1 i = get l2 i) ->
  l1 = l2.
Proof.
  intros Hlen Hget. apply nth_error_ext. intros j.
  destruct (Nat.lt_ge_cases j (length l1)) as [Hj|Hj].
  - rewrite <- !get_nat. apply Hget. lia.
  - transitivity (@None A); [|symmetry]; apply nth_error_None; lia.
Qed.

Lemma length_calculateSma {N : Number} (data : list num) (p : Z) :
  Z.of_nat (length (Indicators.calculateSma data p))
  = Z.max 0 (Z.of_nat (length data) - p + 1).
Proof.
  unfold Indicators.calculateSma. rewrite length_map, length_range_incl. lia.
Qed.

Lemma get_firstn {A : Type} (l : list A) (n : nat) (i : Z) :
  i < Z.of_nat n -> get (firstn n l) i = get l i.
Proof.
  intros Hi. unfold get. destruct (Z.ltb_spec i 0); [reflexivity|].
  rewrite nth_error_firstn.
  destruct (Nat.ltb_spec (Z.to_nat i) n); [reflexivity|lia].
Qed.

Lemma get_tl {A : Type} (l : list A) (i : Z) :
  0 <= i -> get (tl l) i = get l (i + 1).
Proof.
  intros Hi. unfold get.
  destruct (Z.ltb_spec i 0); [lia|]. destruct (Z.ltb_spec (i + 1) 0); [lia|].
  replace (Z.to_nat (i + 1)) with (S (Z.to_nat i)) by lia.
  destruct l as [|x l]; [|reflexivity].
  simpl. now destruct (Z.to_nat i).
Qed.

Lemma spec_window_app {A : Type} (data more : list A) (i p : Z) :
  0 <= i -> 0 <= p -> i + p <= Z.of_nat (length data) ->
  spec_window (data ++ more) i p = spec_window data i p.
Proof.
  intros Hi Hp Hlen. unfold spec_window.
  rewrite skipn_app, firstn_app.
  replace (Z.to_nat p - length (skipn (Z.to_nat i) data))%nat with 0%nat
    by (rewrite length_skipn; lia).
  simpl. now rewrite app_nil_r.
Qed.

Lemma spec_window_cons {A : Type} (x : A) (data : list A) (i p : Z) :
  0 <= i -> spec_window (x :: data) (i + 1) p = spec_window data i p.
Proof.
  intros Hi. unfold spec_window.
  now replace (Z.to_nat (i + 1)) with (S (Z.to_nat i)) by lia.
Qed.

Section MoreMovingAverages.
Context {N : Number}.
Local Open Scope num_scope.

(** X1. Causality of the simple moving average: the averages computed on a
    series are not changed by the values that arrive later. *)
Theorem calculateSma_prefix (data more : list num) (p : Z) :
  (1 <= p)%Z ->
  firstn (length (Indicators.calculateSma data p))
         (Indicators.calculateSma (data ++ more) p)
  = Indicators.calculateSma data p.
Proof.
  intros Hp.
  pose proof (length_calculateSma data p) as Hl.
  pose proof (length_calculateSma (data ++ more) p) as Hl'.
  rewrite length_app in Hl'.
  apply list_eq_by_get.
  - rewrite length_firstn. lia.
  - intros i Hi. rewrite length_firstn in Hi.
    rewrite get_firstn by lia.
    rewrite !get_calculateSma by (try rewrite length_app; lia).
    now rewrite spec_window_app by lia.
Qed.

(** X2. Time alignment of the simple moving average: dropping the oldest
    value of the series drops the oldest average and leaves the others. *)
Theorem calculateSma_tail (x : num) (data : list num) (p : Z) :
  (1 <= p)%Z ->
  tl (Indicators.calculateSma (x :: data) p) = Indicators.calculateSma data p.
Proof.
  intros Hp.
  pose proof (length_calculateSma data p) as Hl.
  pose proof (length_calculateSma (x :: data) p) as Hl'.
  simpl length in Hl'.
  apply list_eq_by_get.
  - rewrite length_tl. lia.
  - intros i Hi. rewrite length_tl in Hi.
    rewrite get_tl by lia.
    rewrite !get_calculateSma by (simpl length; lia).
    now rewrite spec_window_cons by lia.
Qed.

(** X3. The scalar average of the Bollinger strategy is the most recent
    value of the series average of the quick reference, as soon as the
    series has [p] values. *)
Theorem bollinger_sma_is_last_sma (data : list num) (p : Z) :
  (1 <= p <= Z.of_nat (length data))%Z ->
  get (Indicators.calculateSma data p)
      (Z.of_nat (length (Indicators.calculateSma data p)) - 1)
  = Some (BollingerBreakout.calculateSma data p).
Proof.
  intros Hp.
  rewrite length_calculateSma.
  replace (Z.max 0 (Z.of_nat (length data) - p + 1) - 1)%Z
    with (Z.of_nat (length data) - p)%Z by lia.
  rewrite get_calculateSma, spec_mean_sum by lia.
  unfold BollingerBreakout.calculateSma, slice_from, slice,
    relative_index, spec_window.
  destruct (Z.ltb_spec (- p) 0); [|lia].
  destruct (Z.ltb_spec (Z.of_nat (length data)) 0); [lia|].
  rewrite Z.max_l, Z.min_l by lia.
  now replace (Z.of_nat (length data) - (Z.of_nat (length data) + - p))%Z
    with p by lia.
Qed.
End MoreMovingAverages.

Lemma calculateSma_prefix_witness :
  firstn (length (Indicators.calculateSma (N := binary64)
                    (map Binary64.of_Z [1; 2; 3]) 2))
         (Indicators.calculateSma (N := binary64)
            (map Binary64.of_Z [1; 2; 3] ++ map Binary64.of_Z [7]) 2)
  = Indicators.calculateSma (N := binary64) (map Binary64.of_Z [1; 2; 3]) 2.
Proof.
  apply (calculateSma_prefix (N := binary64)). lia.
Defined.

Lemma calculateSma_tail_witness :
  tl (Indicators.calculateSma (N := binary64) (map Binary64.of_Z [1; 2; 3; 4]) 2)
  = Indicators.calculateSma (N := binary64) (map Binary64.of_Z [2; 3; 4]) 2.
Proof.
  apply (calculateSma_tail (N := binary64)). lia.
Defined.

Lemma bollinger_sma_is_last_sma_witness :
  get (Indicators.calculateSma (N := binary64) (map Binary64.of_Z [1; 2; 3; 4]) 2)
      (Z.of_nat (length (Indicators.calculateSma (N := binary64)
                           (map Binary64.of_Z [1; 2; 3; 4]) 2)) - 1)
  = Some (BollingerBreakout.calculateSma (N := binary64)
            (map Binary64.of_Z [1; 2; 3; 4]) 2).
Proof.
  apply (bollinger_sma_is_last_sma (N := binary64)). simpl. lia.
Defined.

Lemma get_app_prefix {A : Type} (l r : list A) (i : Z) :
  i < Z.of_nat (length l) -> get (l ++ r) i = get l i.
Proof.
  intros Hi. unfold get. destruct (Z.ltb_spec i 0); [reflexivity|].
  apply nth_error_app1. lia.
Qed.

Lemma last_two_decompose {A : Type} (l : list A) :
  (2 <= length l)%nat -> exists f p c, l = f ++ [p; c].
Proof.
  intros Hl.
  rewrite <- (firstn_skipn (length l - 2) l).
  pose proof (length_skipn (length l - 2) l) as Hs.
  destruct (skipn (length l - 2) l) as [|p [|c [|x t]]] eqn:E;
    simpl in Hs; try lia.
  now exists (firstn (length l - 2) l), p, c.
Qed.

Section MoreIndicators.
Context {N : Number}.
Local Open Scope num_scope.

Lemma spec_ema_app (k prev : num) (a b : list num) :
  exists later, spec_ema k prev (a ++ b) = spec_ema k prev a ++ later.
Proof.
  revert prev. induction a as [|x a IH]; intros prev; simpl.
  - now exists (spec_ema k prev b).
  - destruct (IH (x * k + prev * (#1 - k))) as (later & ->).
    now exists later.
Qed.

(** X4. Causality of the exponential moving average: on a series that is
    not empty, the values computed are not changed by the values that arrive
    later. *)
Theorem calculateEma_prefix (d : num) (rest more : list num) (p : Z) :
  firstn (length (d :: rest)) (Indicators.calculateEma ((d :: rest) ++ more) p)
  = Indicators.calculateEma (d :: rest) p.
Proof.
  simpl app. rewrite !calculateEma_nonempty.
  destruct (spec_ema_app (#2 / (#p + #1)) d rest more) as (later & ->).
  simpl. f_equal. rewrite map_app, firstn_app, length_map, length_spec_ema.
  rewrite Nat.sub_diag, firstn_all2 by (now rewrite length_map, length_spec_ema).
  simpl. now rewrite app_nil_r.
Qed.

Lemma length_price_changes (prices : list num) :
  length (Indicators.price_changes prices) = (length prices - 1)%nat.
Proof.
  unfold Indicators.price_changes, range_excl.
  rewrite length_map, length_range_incl. lia.
Qed.

Lemma get_price_changes (prices : list num) (j : Z) :
  (0 <= j < Z.of_nat (length prices) - 1)%Z ->
  get (Indicators.price_changes prices) j
  = Some (Indicators.toNum (get prices (j + 1))
          - Indicators.toNum (get prices j)).
Proof.
  intros Hj. unfold Indicators.price_changes, range_excl.
  rewrite get_map, get_range_incl by lia. simpl.
  now replace (1 + j - 1)%Z with j by lia; replace (1 + j)%Z with (j + 1)%Z by lia.
Qed.

Lemma price_changes_app (prices more : list num) :
  exists later,
    Indicators.price_changes (prices ++ more)
    = Indicators.price_changes prices ++ later.
Proof.
  exists (skipn (length (Indicators.price_changes prices))
                (Indicators.price_changes (prices ++ more))).
  rewrite <- (firstn_skipn (length (Indicators.price_changes prices))
                (Indicators.price_changes (prices ++ more))) at 1.
  f_equal. apply list_eq_by_get.
  - rewrite length_firstn, !length_price_changes, length_app. lia.
  - intros i Hi.
    rewrite length_firstn, !length_price_changes, length_app in Hi.
    rewrite get_firstn by (rewrite length_price_changes; lia).
    rewrite !get_price_changes by (try rewrite length_app; lia).
    now rewrite !get_app_prefix by lia.
Qed.

Lemma length_calculateRsi (prices : list num) (period : Z) :
  (1 <= period)%Z ->
  Z.of_nat (length (Indicators.calculateRsi prices period))
  = Z.max 0 (Z.of_nat (length prices) - period).
Proof.
  intros Hp. unfold Indicators.calculateRsi.
  rewrite length_map, length_range_incl, length_price_changes. lia.
Qed.

(** X5. For a period of at least 1 the relative strength index of [n]
    prices has [max 0 (n - period)] values: it is empty unless there are at
    least [period + 1] prices. *)
Theorem calculateRsi_length (prices : list num) (period : Z) :
  (1 <= period)%Z ->
  Z.of_nat (length (Indicators.calculateRsi prices period))
  = Z.max 0 (Z.of_nat (length prices) - period).
Proof.
  intros Hp. unfold Indicators.calculateRsi.
  rewrite length_map, length_range_incl, length_price_changes. lia.
Qed.

(** X6. Causality of the relative strength index: for a period of at least
    1, the values computed on a series are not changed by the prices that
    arrive later. *)
Theorem calculateRsi_prefix (prices more : list num) (period : Z) :
  (1 <= period)%Z ->
  firstn (length (Indicators.calculateRsi prices period))
         (Indicators.calculateRsi (prices ++ more) period)
  = Indicators.calculateRsi prices period.
Proof.
  intros Hp.
  pose proof (length_calculateRsi prices period Hp) as Hl.
  pose proof (length_calculateRsi (prices ++ more) period Hp) as Hl'.
  rewrite length_app in Hl'.
  pose proof (length_price_changes prices) as Hc.
  pose proof (length_price_changes (prices ++ more)) as Hc'.
  rewrite length_app in Hc'.
  apply list_eq_by_get.
  - rewrite length_firstn. lia.
  - intros i Hi. rewrite length_firstn in Hi.
    rewrite get_firstn by lia.
    replace i with (i + period - period)%Z by lia.
    rewrite !get_calculateRsi by lia.
    f_equal. f_equal.
    replace (i + period)%Z with ((i + period - period) + period)%Z at 2 4 by lia.
    rewrite !slice_inside by lia.
    destruct (price_changes_app prices more) as (later & ->).
    apply spec_window_app; lia.
Qed.

(** X7. The crossover detection consults the last two values of each
    series and nothing before them. *)
Theorem detectCrossover_last_two_only
    (f s : list num) (pf cf ps cs : num) :
  SmaAlert.detectCrossover (f ++ [pf; cf]) (s ++ [ps; cs])
  = SmaAlert.detectCrossover [pf; cf] [ps; cs]
  /\ Indicators.detectCrossover (f ++ [pf; cf]) (s ++ [ps; cs])
     = Indicators.detectCrossover [pf; cf] [ps; cs].
Proof.
  unfold SmaAlert.detectCrossover, Indicators.detectCrossover.
  rewrite !crossover_with_last_two.
  split; symmetry; apply (crossover_with_last_two _ _ [] []).
Qed.
End MoreIndicators.

Lemma calculateRsi_length_witness :
  Z.of_nat (length (Indicators.calculateRsi (N := binary64)
                      (map Binary64.of_Z [1; 2; 4; 3; 5]) 2))
  = 3.
Proof.
  apply (calculateRsi_length (N := binary64)). lia.
Defined.

Lemma calculateRsi_prefix_witness :
  firstn (length (Indicators.calculateRsi (N := binary64)
                    (map Binary64.of_Z [1; 2; 4; 3]) 2))
         (Indicators.calculateRsi (N := binary64)
            (map Binary64.of_Z [1; 2; 4; 3] ++ map Binary64.of_Z [9]) 2)
  = Indicators.calculateRsi (N := binary64) (map Binary64.of_Z [1; 2; 4; 3]) 2.
Proof.
  apply (calculateRsi_prefix (N := binary64)). lia.
Defined.

Lemma calculateSma_period_zero_generic {N : Number} (data : list num) :
  Indicators.calculateSma data 0
  = repeat (Indicators.sum [] / #0)%num (S (length data)).
Proof.
  apply list_eq_by_get.
  - apply Nat2Z.inj. rewrite length_calculateSma, repeat_length. lia.
  - intros i Hi. rewrite length_calculateSma in Hi.
    unfold Indicators.calculateSma.
    rewrite get_map, get_range_incl by lia. simpl option_map.
    rewrite slice_inside by lia.
    replace i with (Z.of_nat (Z.to_nat i)) at 2 by lia.
    rewrite get_nat, nth_error_repeat by lia.
    reflexivity.
Qed.

Section Binary64Indicators.
#[local] Existing Instance binary64.
Local Open Scope num_scope.

Lemma is_nan_inv (x : float) : PrimFloat.is_nan x = true -> x = nan.
Proof.
  intros H. apply Prim2SF_inj. change (Prim2SF nan) with S754_nan.
  unfold PrimFloat.is_nan in H. rewrite FloatAxioms.eqb_spec in H.
  unfold SFeqb in H.
  destruct (Prim2SF x) as [s|s| |s m e]; simpl in H; try reflexivity.
  - discriminate.
  - destruct s; discriminate.
  - rewrite Z.compare_refl, Pos.compare_cont_refl in H.
    destruct s; discriminate.
Qed.

(** X8. Exchanging the two series exchanges the two labels: the fast
    average crosses above the slow one exactly when the slow one crosses
    below the fast one. *)
Theorem detectCrossover_swap (line1 line2 : list num) :
  (SmaAlert.detectCrossover line2 line1 = Some "bearish"
   <-> SmaAlert.detectCrossover line1 line2 = Some "bullish") /\
  (SmaAlert.detectCrossover line2 line1 = Some "bullish"
   <-> SmaAlert.detectCrossover line1 line2 = Some "bearish").
Proof.
  unfold SmaAlert.detectCrossover.
  destruct (Nat.lt_ge_cases (length line1) 2) as [H1|H1].
  { rewrite !crossover_with_short by auto. split; split; discriminate. }
  destruct (Nat.lt_ge_cases (length line2) 2) as [H2|H2].
  { rewrite !crossover_with_short by auto. split; split; discriminate. }
  destruct (last_two_decompose line1 H1) as (f1 & p1 & c1 & ->).
  destruct (last_two_decompose line2 H2) as (f2 & p2 & c2 & ->).
  rewrite !crossover_with_last_two.
  destruct ((p1 <=? p2) && (c1 >? c2)) eqn:Ea;
    destruct ((p2 <=? p1) && (c2 >? c1)) eqn:Eb;
    try (split; split; congruence).
  exfalso.
  apply andb_prop in Ea as [_ Ea]. apply andb_prop in Eb as [_ Eb].
  float_ops. rewrite (ltb_asym _ _ Ea) in Eb. discriminate.
Qed.

(** X9. A NaN among the last two values of either series yields no
    crossover. *)
Theorem detectCrossover_nan (f s : list num) (pf cf ps cs : num) :
  PrimFloat.is_nan pf || PrimFloat.is_nan cf
  || PrimFloat.is_nan ps || PrimFloat.is_nan cs = true ->
  SmaAlert.detectCrossover (f ++ [pf; cf]) (s ++ [ps; cs]) = None.
Proof.
  intros H. unfold SmaAlert.detectCrossover.
  rewrite crossover_with_last_two. float_ops.
  repeat (apply orb_prop in H as [H|H]);
    apply is_nan_inv in H; subst;
    rewrite ?leb_nan_l, ?leb_nan_r, ?ltb_nan_l, ?ltb_nan_r,
      ?andb_false_r, ?andb_false_l; simpl;
    rewrite ?leb_nan_l, ?leb_nan_r, ?ltb_nan_l, ?ltb_nan_r,
      ?andb_false_r, ?andb_false_l; reflexivity.
Qed.

Lemma detectCrossover_nan_witness :
  SmaAlert.detectCrossover ([] ++ [ #1; NaN ]) ([] ++ [ #2; #1 ]) = None.
Proof.
  apply detectCrossover_nan. reflexivity.
Defined.

(** X10. With the period 0 the simple moving average of [n] values is a
    series of [n + 1] NaN: every window is empty and its sum 0 is divided
    by 0. *)
Theorem calculateSma_period_zero (data : list num) :
  Indicators.calculateSma data 0 = repeat NaN (S (length data)).
Proof.
  rewrite calculateSma_period_zero_generic. reflexivity.
Qed.
End Binary64Indicators.

(** * Further properties of the relative strength index *)

Section Binary64RsiMore.
#[local] Existing Instance binary64.
Local Open Scope num_scope.

(** X14. A window of [period] changes in which no change is a gain has
    the value 0, whatever the prices. *)
Theorem rsi_without_gains (prices : list num) (period i : Z) :
  let changes := Indicators.price_changes prices in
  let window := slice changes (i - period) i in
  (1 <= period <= i)%Z -> (i <= Z.of_nat (length changes))%Z ->
  Forall (fun c => (c >? #0) = false) window ->
  get (Indicators.calculateRsi prices period) (i - period) = Some #0.
Proof.
  intros changes window Hp Hi Hnone.
  rewrite get_calculateRsi by (fold changes; lia).
  fold changes. fold window. f_equal.
  unfold Indicators.rsi_value.
  rewrite (filter_none (fun c => c >? #0) _ Hnone).
  set (losses := Math_abs _ / #period).
  assert (Hl : SF_nan (Prim2SF losses) = true
               \/ is_nonneg (Prim2SF losses) = true)
    by exact (average_class _ period ltac:(lia) (losses_sum_nonneg window)).
  destruct (divisor_pos losses Hl) as [Hd _].
  set (d := Indicators.num_or losses #1) in *.
  set (gains := Indicators.sum [] / #period).
  assert (Hg : Prim2SF gains = S754_zero false).
  { change (Prim2SF (PrimFloat.div (Binary64.of_Z 0) (Binary64.of_Z period))
            = S754_zero false).
    rewrite FloatAxioms.div_spec.
    change (Prim2SF (Binary64.of_Z 0)) with (S754_zero false).
    pose proof (of_Z_pos period ltac:(lia)) as Hpos.
    destruct (Prim2SF (Binary64.of_Z period)) as [s|[|]| |[|] m e];
      try discriminate; reflexivity. }
  set (rs := gains / d).
  assert (Hrs : Prim2SF rs = S754_zero false).
  { unfold rs. change (gains / d) with (PrimFloat.div gains d).
    rewrite FloatAxioms.div_spec, Hg.
    destruct (Prim2SF d) as [s|[|]| |[|] m e]; try discriminate; reflexivity. }
  apply Prim2SF_inj.
  change (Prim2SF (PrimFloat.sub (Binary64.of_Z 100)
                     (PrimFloat.div (Binary64.of_Z 100)
                        (PrimFloat.add (Binary64.of_Z 1) rs)))
          = Prim2SF (Binary64.of_Z 0)).
  rewrite FloatAxioms.sub_spec, FloatAxioms.div_spec, FloatAxioms.add_spec.
  rewrite Hrs. vm_compute. reflexivity.
Qed.

Lemma rsi_without_gains_witness :
  get (Indicators.calculateRsi (map of_Z [9; 7; 7; 4]) 3) 0 = Some #0.
Proof.
  apply (rsi_without_gains (map of_Z [9; 7; 7; 4]) 3 3).
  - lia.
  - vm_compute. discriminate.
  - vm_compute. repeat constructor.
Defined.
End Binary64RsiMore.

(** * Further properties of the strategies *)



Section MoreRuns.
Context {N : Number}.
Local Open Scope num_scope.

Lemma crossover_with_labels (up down : string) (line1 line2 : list num) :
  Indicators.crossover_with up down line1 line2 = None
  \/ Indicators.crossover_with up down line1 line2 = Some up
  \/ Indicators.crossover_with up down line1 line2 = Some down.
Proof.
  unfold Indicators.crossover_with.
  repeat match goal with |- context [if ?c then _ else _] => destruct c end;
    auto.
Qed.

(** X17. In each of the five strategies that read one series, the run
    schedules at most one e-mail, to the configured address and only with the
    status [ok], and the [emailSent] flag of the record is true exactly when
    it did. *)
Theorem notifications_consistent (args : FunctionArgs num) :
  (forall r, SmaAlert.run args = Some r ->
             consistent_notification (SmaAlert.email args) r) /\
  (forall r, RsiAlert.run args = Some r ->
             consistent_notification (RsiAlert.email args) r) /\
  (forall r, PriceThreshold.run args = Some r ->
             consistent_notification (PriceThreshold.email args) r) /\
  (forall r, VolumeSpike.run args = Some r ->
             consistent_notification (VolumeSpike.email args) r) /\
  (forall r, BollingerBreakout.run args = Some r ->
             consistent_notification (BollingerBreakout.email args) r).
Proof.
  unfold consistent_notification.
  split; [|split; [|split; [|split]]]; intros r.
  - unfold SmaAlert.run.
    destruct (getCandles args (SmaAlert.ticker args)); [|discriminate].
    cbv zeta.
    destruct (is_label _ "bullish"); [|destruct (is_label _ "bearish")];
      intros H; injection H as <-;
      first [ right; eexists; repeat split; reflexivity
            | left; split; [reflexivity|discriminate] ].
  - unfold RsiAlert.run.
    destruct (getCandles args (RsiAlert.ticker args)); [|discriminate].
    cbv zeta.
    destruct (get _ _) as [current|]; simpl Indicators.toNum;
      repeat match goal with
             | |- context [if ?c then _ else _] => destruct c
             end;
      intros H; try discriminate; injection H as <-;
      first [ right; eexists; repeat split; reflexivity
            | left; split; [reflexivity|discriminate] ].
  - unfold PriceThreshold.run.
    destruct (getCandles args (PriceThreshold.ticker args)); [|discriminate].
    cbv zeta.
    destruct (Z.of_nat _ <? 2)%Z.
    + intros H; injection H as <-. left. split; [reflexivity|discriminate].
    + destruct (get _ _) as [current|]; [|discriminate].
      destruct (get _ _) as [previous|]; [|discriminate].
      repeat match goal with
             | |- context [if ?c then _ else _] => destruct c
             end;
        intros H; injection H as <-;
        first [ right; eexists; repeat split; reflexivity
              | left; split; [reflexivity|discriminate] ].
  - unfold VolumeSpike.run.
    destruct (getCandles args (VolumeSpike.ticker args)); [|discriminate].
    destruct (Z.of_nat _ <? _)%Z.
    + intros H; injection H as <-. left. split; [reflexivity|discriminate].
    + destruct (_ >=? _).
      * destruct (VolumeSpike.currentVolume _); [|discriminate].
        intros H; injection H as <-.
        right; eexists; repeat split; reflexivity.
      * intros H; injection H as <-. left. split; [reflexivity|discriminate].
  - unfold BollingerBreakout.run.
    destruct (getCandles args (BollingerBreakout.ticker args)); [|discriminate].
    cbv zeta.
    destruct (Z.of_nat _ <? _)%Z.
    + intros H; injection H as <-. left. split; [reflexivity|discriminate].
    + unfold BollingerBreakout.breakout_of.
      destruct (Indicators.toNum _ >? _);
        [|destruct (Indicators.toNum _ <? _)]; simpl;
        intros H; injection H as <-;
        first [ right; eexists; repeat split; reflexivity
              | left; split; [reflexivity|discriminate] ].
Qed.
End MoreRuns.

Lemma slice_before_last {A : Type} (l : list A) (p : Z) :
  1 <= p -> p + 1 <= Z.of_nat (length l) ->
  slice l (- p - 1) (-1) = spec_window l (Z.of_nat (length l) - 1 - p) p.
Proof.
  intros Hp Hn. unfold slice, relative_index, spec_window.
  destruct (Z.ltb_spec (- p - 1) 0); [|lia].
  destruct (Z.ltb_spec (-1) 0); [|lia].
  rewrite !Z.max_l by lia.
  f_equal; [|f_equal]; lia.
Qed.

Section MoreRuns2.
Context {N : Number}.
Local Open Scope num_scope.

(** X18. Whenever the moving-average strategy returns, the status is [ok]
    and the [crossover] field is [none], [bullish] or [bearish]; an e-mail is
    scheduled exactly when it is not [none]. *)
Theorem sma_alert_outcome (args : FunctionArgs num) (r : Run num) :
  SmaAlert.run args = Some r ->
  field r "status" = Some (VStr "ok")
  /\ (field r "crossover" = Some (VStr "none") /\ emails r = []
      \/ field r "crossover" = Some (VStr "bullish") /\ length (emails r) = 1%nat
      \/ field r "crossover" = Some (VStr "bearish") /\ length (emails r) = 1%nat).
Proof.
  unfold SmaAlert.run.
  destruct (getCandles args (SmaAlert.ticker args)) as [series|];
    [|discriminate].
  cbv zeta. unfold SmaAlert.detectCrossover.
  destruct (crossover_with_labels "bullish" "bearish"
              (SmaAlert.calculateSma (map close series) (SmaAlert.fastPeriod args))
              (SmaAlert.calculateSma (map close series) (SmaAlert.slowPeriod args)))
    as [->|[->| ->]]; simpl; intros H; injection H as <-;
    (split; [reflexivity|]); auto.
Qed.

(** X19. The threshold strategy refuses a series of fewer than two candles,
    whatever the call arguments: status [error], no e-mail. *)
Theorem price_threshold_short_series
    (args : FunctionArgs num) (series : list (Candle num)) :
  getCandles args (PriceThreshold.ticker args) = Some series ->
  (length series < 2)%nat ->
  PriceThreshold.run args
  = Some {| emails := [];
            output := [ ("status", VStr "error");
                        ("message", VStr "Not enough candles for analysis") ] |}.
Proof.
  intros Hc Hlen. unfold PriceThreshold.run. rewrite Hc.
  destruct (Z.ltb_spec (Z.of_nat (length series)) 2); [reflexivity|lia].
Qed.

(** X20. A direction other than [above] and [below] disables the threshold
    alert: no e-mail is scheduled and nothing is triggered. *)
Theorem price_threshold_other_direction (args : FunctionArgs num) (r : Run num) :
  PriceThreshold.direction args <> "above" ->
  PriceThreshold.direction args <> "below" ->
  PriceThreshold.run args = Some r ->
  emails r = []
  /\ (field r "status" = Some (VStr "error")
      \/ field r "triggered" = Some (VBool false)).
Proof.
  intros Habove Hbelow. unfold PriceThreshold.run.
  apply String.eqb_neq in Habove, Hbelow.
  destruct (getCandles args (PriceThreshold.ticker args)); [|discriminate].
  cbv zeta.
  destruct (Z.of_nat _ <? 2)%Z.
  - intros H; injection H as <-. split; [reflexivity|now left].
  - destruct (get _ _) as [current|]; [|discriminate].
    destruct (get _ _) as [previous|]; [|discriminate].
    rewrite Habove, Hbelow. simpl.
    intros H; injection H as <-. split; [reflexivity|now right].
Qed.


(** X22. Once the series has [volumePeriod + 1] candles, the average volume
    is the mean of exactly the [volumePeriod] volumes that precede the last
    one: the current volume is not part of its own average. *)
Theorem volume_spike_window
    (args : FunctionArgs num) (series : list (Candle num)) :
  let p := VolumeSpike.volumePeriod args in
  let n := Z.of_nat (length series) in
  (1 <= p)%Z -> (p + 1 <= n)%Z ->
  VolumeSpike.avgVolume args series
  = spec_mean (spec_window (map volume series) (n - 1 - p) p)
  /\ Z.of_nat (length (spec_window (map volume series) (n - 1 - p) p)) = p
  /\ VolumeSpike.currentVolume series = get (map volume series) (n - 1).
Proof.
  intros p n Hp Hn.
  assert (Hlen : Z.of_nat (length (map volume series)) = n)
    by now rewrite length_map.
  split; [|split].
  - rewrite spec_mean_sum.
    unfold VolumeSpike.avgVolume, VolumeSpike.calculateAverage.
    fold p. rewrite slice_before_last by (rewrite ?Hlen; lia).
    now rewrite Hlen.
  - rewrite length_spec_window; lia.
  - unfold VolumeSpike.currentVolume. now rewrite Hlen.
Qed.

(** X23. A negative period passes the length check of the Bollinger
    strategy: it then never reports insufficient data, whatever the
    series. *)
Theorem bollinger_negative_period (args : FunctionArgs num) (r : Run num) :
  (BollingerBreakout.period args < 0)%Z ->
  BollingerBreakout.run args = Some r ->
  field r "status" = Some (VStr "ok").
Proof.
  intros Hneg. unfold BollingerBreakout.run.
  destruct (getCandles args (BollingerBreakout.ticker args)) as [series|];
    [|discriminate].
  cbv zeta.
  destruct (Z.ltb_spec (Z.of_nat (length (map close series)))
              (BollingerBreakout.period args)) as [Hlt|_]; [lia|].
  intros E; injection E as <-. reflexivity.
Qed.

(** X24. A negative period passes the length check of the volume strategy
    as well. *)
Theorem volume_spike_negative_period (args : FunctionArgs num) (r : Run num) :
  (VolumeSpike.volumePeriod args < 0)%Z ->
  VolumeSpike.run args = Some r ->
  field r "status" = Some (VStr "ok").
Proof.
  intros Hneg. unfold VolumeSpike.run.
  destruct (getCandles args (VolumeSpike.ticker args)) as [series|];
    [|discriminate].
  destruct (Z.ltb_spec (Z.of_nat (length series))
              (VolumeSpike.volumePeriod args + 1)) as [Hlt|_]; [lia|].
  destruct (_ >=? _).
  - destruct (VolumeSpike.currentVolume _); [|discriminate].
    intros E; injection E as <-. reflexivity.
  - intros E; injection E as <-. reflexivity.
Qed.
End MoreRuns2.

Section MoreRunsWitnesses.
#[local] Existing Instance binary64.
Local Open Scope num_scope.

Lemma notifications_consistent_witness :
  let args := input [("fastPeriod", "2"); ("slowPeriod", "3")]
                (map (fun z => candle #z #1) [5; 4; 3; 9]) in
  exists r, SmaAlert.run args = Some r
            /\ length (emails r) = 1%nat
            /\ consistent_notification (SmaAlert.email args) r.
Proof.
  intros args. eexists. split; [reflexivity|]. split; [reflexivity|].
  apply (proj1 (notifications_consistent args)). reflexivity.
Defined.

Lemma price_threshold_short_series_witness :
  PriceThreshold.run (input [("threshold", "3")] [candle #1 #1])
  = Some {| emails := [];
            output := [ ("status", VStr "error");
                        ("message", VStr "Not enough candles for analysis") ] |}.
Proof.
  apply (price_threshold_short_series
           (input [("threshold", "3")] [candle #1 #1]) [candle #1 #1]).
  - vm_compute. reflexivity.
  - simpl. lia.
Defined.

Lemma sma_alert_outcome_witness :
  let args := input [("fastPeriod", "2"); ("slowPeriod", "3")]
                (map (fun z => candle #z #1) [5; 4; 3; 9]) in
  exists r, SmaAlert.run args = Some r
            /\ field r "status" = Some (VStr "ok")
            /\ (field r "crossover" = Some (VStr "none") /\ emails r = []
                \/ field r "crossover" = Some (VStr "bullish")
                   /\ length (emails r) = 1%nat
                \/ field r "crossover" = Some (VStr "bearish")
                   /\ length (emails r) = 1%nat).
Proof.
  intros args. eexists. split; [reflexivity|].
  apply (sma_alert_outcome args). reflexivity.
Defined.

Lemma price_threshold_other_direction_witness :
  let args := input [("threshold", "3"); ("direction", "up")]
                (map (fun z => candle #z #1) [1; 5]) in
  exists r, PriceThreshold.run args = Some r
            /\ emails r = []
            /\ (field r "status" = Some (VStr "error")
                \/ field r "triggered" = Some (VBool false)).
Proof.
  intros args. eexists. split; [reflexivity|].
  apply (price_threshold_other_direction args).
  - vm_compute. discriminate.
  - vm_compute. discriminate.
  - reflexivity.
Defined.

Lemma volume_spike_window_witness :
  let series := map (fun z => candle #1 #z) [10; 20; 30; 400] in
  let args := input [("volumePeriod", "2")] series in
  (VolumeSpike.avgVolume args series
   = spec_mean (spec_window (map volume series) (4 - 1 - 2) 2)
   /\ Z.of_nat (length (spec_window (map volume series) (4 - 1 - 2) 2)) = 2
   /\ VolumeSpike.currentVolume series = get (map volume series) (4 - 1))
  /\ spec_mean (spec_window (map volume series) (4 - 1 - 2) 2) = #25.
Proof.
  intros series args. split.
  - apply (volume_spike_window args series); vm_compute; discriminate.
  - vm_compute. reflexivity.
Defined.

Lemma bollinger_negative_period_witness :
  let args := input [("period", "-3")] [] in
  exists r, BollingerBreakout.run args = Some r
            /\ field r "status" = Some (VStr "ok").
Proof.
  intros args. eexists. split; [reflexivity|].
  apply (bollinger_negative_period args); [vm_compute|]; reflexivity.
Defined.

Lemma volume_spike_negative_period_witness :
  let args := input [("volumePeriod", "-3")] [] in
  exists r, VolumeSpike.run args = Some r
            /\ field r "status" = Some (VStr "ok").
Proof.
  intros args. eexists. split; [reflexivity|].
  apply (volume_spike_negative_period args); [vm_compute|]; reflexivity.
Defined.
End MoreRunsWitnesses.

(** ** Multiple timeframes *)

Section MultiTimeframeFacts.
Context {N : Number}.
Local Open Scope num_scope.

Lemma step_flags (args : FunctionArgs num) (st : MultiTimeframe.state)
    (ticker : string) :
  MultiTimeframe.allBullish (MultiTimeframe.step args st ticker)
  = MultiTimeframe.allBullish st && negb (is_label (verdict args ticker) "bearish")
  /\ MultiTimeframe.allBearish (MultiTimeframe.step args st ticker)
     = MultiTimeframe.allBearish st
       && negb (is_label (verdict args ticker) "bullish").
Proof.
  unfold MultiTimeframe.step, verdict.
  destruct (getCandles args ticker) as [candles|]; simpl.
  - destruct (Z.of_nat _ <? _)%Z; simpl.
    + now rewrite !andb_true_r.
    + destruct (_ >? _); simpl;
        destruct (MultiTimeframe.allBullish st),
                 (MultiTimeframe.allBearish st); split; reflexivity.
  - now rewrite !andb_true_r.
Qed.

(** X25. The signal of the multiple-timeframe strategy is [bullish] when no
    ticker was found bearish, [bearish] when one was found bearish and none
    bullish, and [mixed] when both occur; an e-mail is scheduled unless it
    is [mixed]. *)
Theorem multi_timeframe_signal (args : FunctionArgs num) :
  let seen label :=
    existsb (fun t => is_label (verdict args t) label) MultiTimeframe.tickers in
  report_signal (MultiTimeframe.run args)
  = (if negb (seen "bearish") then "bullish"
     else if negb (seen "bullish") then "bearish" else "mixed")
  /\ report_emailSent (MultiTimeframe.run args)
     = negb (seen "bearish" && seen "bullish")
  /\ (report_emails (MultiTimeframe.run args) = []
      <-> seen "bearish" && seen "bullish" = true)
  /\ report_status (MultiTimeframe.run args) = "ok".
Proof.
  intros seen. unfold MultiTimeframe.run, MultiTimeframe.tickers. simpl fold_left.
  match goal with
  | |- context [MultiTimeframe.allBullish ?s] => set (final := s)
  end.
  assert (Hb : MultiTimeframe.allBullish final = negb (seen "bearish")
               /\ MultiTimeframe.allBearish final = negb (seen "bullish")).
  { subst final seen. unfold MultiTimeframe.tickers. simpl existsb.
    repeat match goal with
           | |- context [MultiTimeframe.step args ?s ?t] =>
               let H1 := fresh in let H2 := fresh in
               destruct (step_flags args s t) as [H1 H2];
               rewrite ?H1, ?H2; clear H1 H2
           end.
    simpl. rewrite !orb_false_r, !negb_orb, !andb_assoc. split; reflexivity. }
  destruct Hb as [-> ->].
  destruct (seen "bearish"), (seen "bullish"); simpl;
    repeat split; try reflexivity; try discriminate.
Qed.

(** X26. When none of the three tickers can be analysed (each has no series
    or fewer than [period + 1] candles), the multiple-timeframe strategy
    still reports the signal [bullish] and schedules the bullish e-mail. *)
Theorem multi_timeframe_without_data (args : FunctionArgs num) :
  (forall t, In t MultiTimeframe.tickers ->
             match getCandles args t with
             | None => True
             | Some candles =>
                 (Z.of_nat (length candles) < MultiTimeframe.period args + 1)%Z
             end) ->
  report_signal (MultiTimeframe.run args) = "bullish"
  /\ report_emailSent (MultiTimeframe.run args) = true
  /\ report_emails (MultiTimeframe.run args)
     = [ {| recipient := MultiTimeframe.email args;
            message := [Lit "Strong bullish signal: All timeframes are above ";
                        Int (MultiTimeframe.period args);
                        Lit "-period SMA"] |} ]
  /\ Forall (fun kv => snd kv = Failed)
            (report_analysis (MultiTimeframe.run args)).
Proof.
  intros Hnone.
  assert (Hstep : forall st t, In t MultiTimeframe.tickers ->
            MultiTimeframe.step args st t = st
            \/ MultiTimeframe.step args st t
               = {| MultiTimeframe.analysis :=
                      assign (MultiTimeframe.analysis st) t Failed;
                    MultiTimeframe.allBullish := MultiTimeframe.allBullish st;
                    MultiTimeframe.allBearish := MultiTimeframe.allBearish st |}).
  { intros st t Ht. specialize (Hnone t Ht). unfold MultiTimeframe.step.
    destruct (getCandles args t) as [candles|]; [|now right].
    rewrite length_map.
    destruct (Z.ltb_spec (Z.of_nat (length candles))
                (MultiTimeframe.period args + 1)); [now left|lia]. }
  assert (Hassign : forall (a : list (string * entry num)) t,
            Forall (fun kv => snd kv = Failed) a ->
            Forall (fun kv => snd kv = Failed) (assign a t Failed)).
  { intros a t Ha. induction Ha as [|[k e] a He Ha IH]; simpl in *.
    - now repeat constructor.
    - destruct (String.eqb k t); constructor; auto. }
  unfold MultiTimeframe.run, MultiTimeframe.tickers. simpl fold_left.
  set (s0 := {| MultiTimeframe.analysis := [];
                MultiTimeframe.allBullish := true;
                MultiTimeframe.allBearish := true |}).
  assert (Hinv : forall st,
            MultiTimeframe.allBullish st = true /\
            Forall (fun kv => snd kv = Failed) (MultiTimeframe.analysis st) ->
            forall t, In t MultiTimeframe.tickers ->
            MultiTimeframe.allBullish (MultiTimeframe.step args st t) = true /\
            Forall (fun kv => snd kv = Failed)
                   (MultiTimeframe.analysis (MultiTimeframe.step args st t))).
  { intros st [Hb Ha] t Ht.
    destruct (Hstep st t Ht) as [-> | ->]; simpl; auto. }
  assert (H0 : MultiTimeframe.allBullish s0 = true /\
               Forall (fun kv => snd kv = Failed) (MultiTimeframe.analysis s0))
    by (split; [reflexivity|constructor]).
  pose proof (Hinv _ H0 "BTCUSDT_1H" ltac:(simpl; auto)) as H1.
  pose proof (Hinv _ H1 "BTCUSDT_4H" ltac:(simpl; auto)) as H2.
  pose proof (Hinv _ H2 "BTCUSDT_1D" ltac:(simpl; auto)) as [Hb Ha].
  rewrite Hb. repeat split; try reflexivity. exact Ha.
Qed.
End MultiTimeframeFacts.

Lemma multi_timeframe_without_data_witness :
  let args := input (T := @num binary64) [] [] in
  report_signal (MultiTimeframe.run (N := binary64) args) = "bullish"
  /\ report_emailSent (MultiTimeframe.run (N := binary64) args) = true
  /\ report_emails (MultiTimeframe.run (N := binary64) args)
     = [ {| recipient := "trader@example.com";
            message := [Lit "Strong bullish signal: All timeframes are above ";
                        Int 20; Lit "-period SMA"] |} ]
  /\ Forall (fun kv => snd kv = Failed)
            (report_analysis (MultiTimeframe.run (N := binary64) args)).
Proof.
  intros args.
  apply (multi_timeframe_without_data (N := binary64) args).
  intros t [<-|[<-|[<-|[]]]]; vm_compute; exact I.
Defined.

(** ** Runs on doubles *)

Section Binary64Runs.
#[local] Existing Instance binary64.
Local Open Scope num_scope.

Lemma empty_of_length {A : Type} (l : list A) :
  (Z.of_nat (length l) = 0)%Z -> l = [].
Proof. destruct l; simpl; [reflexivity|lia]. Qed.

(** X27. On doubles, a threshold that does not parse as a number (it reads
    as NaN) never triggers the price-threshold alert, whatever the direction
    and the prices: the run ends with status [ok] and no e-mail. *)
Theorem price_threshold_unparseable (args : FunctionArgs num)
    (candles : list (Candle num)) (x : num) :
  PriceThreshold.threshold args = Some x ->
  PrimFloat.is_nan x = true ->
  getCandles args (PriceThreshold.ticker args) = Some candles ->
  (2 <= Z.of_nat (length candles))%Z ->
  exists r, PriceThreshold.run args = Some r
            /\ emails r = []
            /\ field r "status" = Some (VStr "ok")
            /\ field r "triggered" = Some (VBool false)
            /\ field r "emailSent" = Some (VBool false).
Proof.
  intros Hx Hnan Hc Hlen. apply is_nan_inv in Hnan. subst x.
  unfold PriceThreshold.run. rewrite Hc, Hx.
  destruct (Z.ltb_spec (Z.of_nat (length candles)) 2) as [Hlt|_]; [lia|].
  destruct (get_in_range candles (Z.of_nat (length candles) - 1))
    as [current ->]; [lia|].
  destruct (get_in_range candles (Z.of_nat (length candles) - 2))
    as [previous ->]; [lia|].
  cbv [Indicators.toNum].
  change (close previous <=? NaN) with (PrimFloat.leb (close previous) nan).
  change (close previous >=? NaN) with (PrimFloat.leb nan (close previous)).
  rewrite leb_nan_r, leb_nan_l, !andb_false_r. simpl.
  eexists. repeat split; reflexivity.
Qed.

Lemma price_threshold_unparseable_witness :
  let args := input [("threshold", "none"); ("direction", "below")]
                    [candle #1 #1; candle #2 #1] in
  exists r, PriceThreshold.run args = Some r
            /\ emails r = []
            /\ field r "status" = Some (VStr "ok")
            /\ field r "triggered" = Some (VBool false)
            /\ field r "emailSent" = Some (VBool false).
Proof.
  intros args.
  apply (price_threshold_unparseable args [candle #1 #1; candle #2 #1] nan);
    vm_compute; try reflexivity; discriminate.
Defined.

(** X28. On doubles, with fewer than 50 candles the combined strategy reads
    the last element of an empty 50-period average, so its SMA signal and
    its strong buy signal are false and no e-mail is scheduled; with fewer
    than 15 candles the RSI signal is false as well. *)
Theorem combined_needs_fifty_candles (email : string)
    (args : FunctionArgs num) (candles : list (Candle num)) :
  getCandles args (Combined.ticker args) = Some candles ->
  (Z.of_nat (length candles) < 50)%Z ->
  exists c, Combined.run email args = Some c
            /\ combination_emails c = []
            /\ combination_status c = "ok"
            /\ smaBullish (combination_signals c) = false
            /\ strongBuySignal (combination_signals c) = false
            /\ ((Z.of_nat (length candles) < 15)%Z ->
                rsiOversold (combination_signals c) = false).
Proof.
  intros Hc Hlen. unfold Combined.run. rewrite Hc.
  set (closePrices := map close candles).
  assert (H50 : Indicators.calculateSma closePrices 50 = []).
  { apply empty_of_length. rewrite length_calculateSma.
    subst closePrices. rewrite length_map. lia. }
  rewrite H50.
  change (get [] (Z.of_nat (length (@nil num)) - 1)) with (@None num).
  match goal with
  | |- context [?a >? Indicators.toNum None] =>
      change (a >? Indicators.toNum None) with (PrimFloat.ltb nan a);
      rewrite ltb_nan_l
  end.
  eexists. split; [reflexivity|].
  cbn [combination_emails combination_status combination_signals
       smaBullish strongBuySignal rsiOversold andb].
  split; [reflexivity|]. split; [reflexivity|].
  split; [reflexivity|]. split; [reflexivity|].
  intros H15.
  assert (Hrsi : Indicators.calculateRsi closePrices 14 = []).
  { apply empty_of_length. rewrite length_calculateRsi by lia.
    subst closePrices. rewrite length_map.
    change (@num binary64) with float in *. lia. }
  rewrite Hrsi.
  change (get [] (Z.of_nat (length (@nil num)) - 1)) with (@None num).
  apply ltb_nan_l.
Qed.

Lemma combined_needs_fifty_candles_witness :
  let args := input [] [candle #1 #1; candle #2 #1; candle #3 #1] in
  exists c, Combined.run "trader@example.com" args = Some c
            /\ combination_emails c = []
            /\ combination_status c = "ok"
            /\ smaBullish (combination_signals c) = false
            /\ strongBuySignal (combination_signals c) = false
            /\ ((Z.of_nat 3 < 15)%Z ->
                rsiOversold (combination_signals c) = false).
Proof.
  intros args.
  apply (combined_needs_fifty_candles "trader@example.com" args
           [candle #1 #1; candle #2 #1; candle #3 #1]);
    [reflexivity | simpl; lia].
Defined.
(** X29. On doubles, when the series has at most [rsiPeriod] candles (for a
    period of at least 1) the relative strength index is empty: the RSI
    strategy raises no error, it reports status [ok] with an undefined
    index, no signal and no e-mail. *)
Theorem rsi_alert_needs_more_candles (args : FunctionArgs num)
    (candles : list (Candle num)) :
  getCandles args (RsiAlert.ticker args) = Some candles ->
  (1 <= RsiAlert.rsiPeriod args)%Z ->
  (Z.of_nat (length candles) <= RsiAlert.rsiPeriod args)%Z ->
  RsiAlert.run args = Some (RsiAlert.record args None VNull []).
Proof.
  intros Hc Hp Hlen. unfold RsiAlert.run. rewrite Hc.
  assert (Hrsi : RsiAlert.calculateRsi (map close candles)
                   (RsiAlert.rsiPeriod args) = []).
  { apply empty_of_length. unfold RsiAlert.calculateRsi.
    rewrite length_calculateRsi by exact Hp. rewrite length_map.
    change (@num binary64) with float in *. lia. }
  rewrite Hrsi.
  change (get [] (Z.of_nat (length (@nil num)) - 1)) with (@None num).
  change (Indicators.toNum None >=? RsiAlert.overbought args)
    with (PrimFloat.leb (RsiAlert.overbought args) nan).
  change (Indicators.toNum None <=? RsiAlert.oversold args)
    with (PrimFloat.leb nan (RsiAlert.oversold args)).
  now rewrite leb_nan_r, leb_nan_l.
Qed.

Lemma rsi_alert_needs_more_candles_witness :
  let args := input [("rsiPeriod", "3")]
                    [candle #1 #1; candle #2 #1; candle #3 #1] in
  RsiAlert.run args = Some (RsiAlert.record args None VNull []).
Proof.
  intros args.
  apply (rsi_alert_needs_more_candles args
           [candle #1 #1; candle #2 #1; candle #3 #1]);
    [reflexivity | vm_compute; discriminate | vm_compute; discriminate].
Defined.
End Binary64Runs.

(** ** Defaults of the other strategies *)

Section MoreDefaults.
Context {N : Number}.
Local Open Scope num_scope.

Lemma getCallArgument_other {V : Type} (args : FunctionArgs num)
    (name raw name' : string) (parser : string -> V) :
  name' <> name ->
  getCallArgument (with_argument name raw args) name' parser
  = getCallArgument (without_argument name args) name' parser.
Proof.
  intros Hne. unfold getCallArgument, with_argument, without_argument.
  simpl callArguments.
  now rewrite lookup_insert_ne, lookup_delete_ne by congruence.
Qed.

(** X30. In the strategies on the relative strength index, the price
    threshold, the Bollinger bands and the multiple timeframes, and in the
    combined strategy, supplying a falsy value for a parameter that has a
    default (the empty string for a text, a text that parses to 0 or NaN for
    a number) gives the same run as leaving the parameter out.  The
    threshold of the price-threshold strategy has no default and is set
    apart. *)
Theorem falsy_argument_other_strategies
    (args : FunctionArgs num) (name raw : string) :
  (name = "ticker" \/ name = "email" \/ name = "direction" -> raw = "") ->
  (name = "rsiPeriod" \/ name = "period" -> falsy (parseInt raw) = true) ->
  (name = "overbought" \/ name = "oversold" \/ name = "stdDevMultiplier" ->
   falsy (parseFloat raw) = true) ->
  name <> "threshold" ->
  RsiAlert.run (with_argument name raw args)
  = RsiAlert.run (without_argument name args)
  /\ PriceThreshold.run (with_argument name raw args)
     = PriceThreshold.run (without_argument name args)
  /\ BollingerBreakout.run (with_argument name raw args)
     = BollingerBreakout.run (without_argument name args)
  /\ MultiTimeframe.run (with_argument name raw args)
     = MultiTimeframe.run (without_argument name args)
  /\ (forall email, Combined.run email (with_argument name raw args)
                    = Combined.run email (without_argument name args)).
Proof.
  intros Htext Hint Hnum Hthreshold.
  assert (Etext : forall name' (d : string),
            name' = "ticker" \/ name' = "email" \/ name' = "direction" ->
            getCallArgument (with_argument name raw args) name' (fun v => v)
            ||| d
            = getCallArgument (without_argument name args) name' (fun v => v)
              ||| d).
  { intros name' d Hn. apply or_else_with_falsy. intros E. subst name'.
    now rewrite (Htext Hn). }
  assert (Eint : forall name' (d : Z),
            name' = "rsiPeriod" \/ name' = "period" ->
            getCallArgument (with_argument name raw args) name' parseInt ||| d
            = getCallArgument (without_argument name args) name' parseInt
              ||| d).
  { intros name' d Hn. apply or_else_with_falsy. intros E. subst name'.
    exact (Hint Hn). }
  assert (Enum : forall name' (d : num),
            name' = "overbought" \/ name' = "oversold"
            \/ name' = "stdDevMultiplier" ->
            getCallArgument (with_argument name raw args) name' parseFloat
            ||| d
            = getCallArgument (without_argument name args) name' parseFloat
              ||| d).
  { intros name' d Hn. apply or_else_with_falsy. intros E. subst name'.
    exact (Hnum Hn). }
  assert (Ethreshold : PriceThreshold.threshold (with_argument name raw args)
                       = PriceThreshold.threshold (without_argument name args)).
  { apply getCallArgument_other. congruence. }
  repeat split.
  - unfold RsiAlert.run, RsiAlert.record, RsiAlert.ticker, RsiAlert.email,
      RsiAlert.rsiPeriod, RsiAlert.overbought, RsiAlert.oversold.
    rewrite !Etext, !Eint, !Enum, getCandles_with_argument by tauto.
    reflexivity.
  - unfold PriceThreshold.run. rewrite Ethreshold.
    unfold PriceThreshold.ticker, PriceThreshold.email,
      PriceThreshold.direction.
    rewrite !Etext, getCandles_with_argument by tauto. reflexivity.
  - unfold BollingerBreakout.run, BollingerBreakout.upperBand,
      BollingerBreakout.lowerBand, BollingerBreakout.ticker,
      BollingerBreakout.email, BollingerBreakout.period,
      BollingerBreakout.stdDevMultiplier.
    rewrite !Etext, !Eint, !Enum, getCandles_with_argument by tauto.
    reflexivity.
  - unfold MultiTimeframe.run.
    assert (Estep : MultiTimeframe.step (with_argument name raw args)
                    = MultiTimeframe.step (without_argument name args)).
    { unfold MultiTimeframe.step, MultiTimeframe.period.
      rewrite !Eint by tauto. reflexivity. }
    rewrite Estep. unfold MultiTimeframe.email, MultiTimeframe.period.
    rewrite !Etext, !Eint by tauto. reflexivity.
  - intros email. unfold Combined.run, Combined.ticker.
    rewrite !Etext, getCandles_with_argument by tauto. reflexivity.
Qed.
End MoreDefaults.

Lemma falsy_argument_other_strategies_witness :
  let args := input (T := @num binary64) [("threshold", "3")]
                    [candle (Binary64.of_Z 1) (Binary64.of_Z 1);
                     candle (Binary64.of_Z 4) (Binary64.of_Z 1)] in
  RsiAlert.run (N := binary64) (with_argument "rsiPeriod" "0" args)
  = RsiAlert.run (N := binary64) (without_argument "rsiPeriod" args)
  /\ PriceThreshold.run (N := binary64) (with_argument "rsiPeriod" "0" args)
     = PriceThreshold.run (N := binary64) (without_argument "rsiPeriod" args)
  /\ BollingerBreakout.run (N := binary64) (with_argument "rsiPeriod" "0" args)
     = BollingerBreakout.run (N := binary64)
         (without_argument "rsiPeriod" args)
  /\ MultiTimeframe.run (N := binary64) (with_argument "rsiPeriod" "0" args)
     = MultiTimeframe.run (N := binary64) (without_argument "rsiPeriod" args)
  /\ (forall email,
        Combined.run (N := binary64) email (with_argument "rsiPeriod" "0" args)
        = Combined.run (N := binary64) email
            (without_argument "rsiPeriod" args)).
Proof.
  intros args.
  apply (falsy_argument_other_strategies (N := binary64) args "rsiPeriod" "0").
  - intros [H|[H|H]]; discriminate H.
  - intros _. reflexivity.
  - intros [H|[H|H]]; discriminate H.
  - discriminate.
Defined.

(** * Series that are too short *)

Section ShortSeries.
#[local] Existing Instance binary64.
Local Open Scope num_scope.



End ShortSeries.
